(** * EchoLog: the synchronization pipeline, embedded in Rocq

    A shallow embedding of the RTP header codec ([rtpUtils.ts]), the jitter
    buffer ([jitterBuffer.ts]), the flush cycle of [UserStreamHandler.ts],
    the drift corrector (class [DriftCorrector]) and the timeline
    computation of [mix.ts], with the properties of the specification
    stated and proved over them.

    Conventions of the embedding.
    - A Node [Buffer] is a [list byte]; reading past its end with
      [readUInt16BE]/[readUInt32BE] throws, [buffer[i]] past its end is
      [undefined], which the bit operators coerce to [0].
    - Integral JavaScript numbers (sequence numbers, [Date.now()]
      milliseconds, byte offsets) are [Z]; every such quantity of the
      pipeline stays far below 2^53, where doubles are exact.
    - The drift regression ([calculateLinearRegression], [detectDrift])
      is in IEEE 754 doubles, Rocq's primitive [float]: its sums cancel,
      and the rounding decides what it returns.
    - The other fractional numbers ([hrtimeToMs], the delays of the mix,
      the drift estimate of a track, stretch factors) are exact rationals
      [Q], without the rounding of doubles; where such a number can be
      infinite or NaN it is a [JsNum.t], which keeps those apart.
    - [Date.now()] is an input: every reading the code takes is a separate
      argument ([Clock] below), so nothing is assumed about two readings of
      one call being equal.
    - [throw]/[try]/[catch] are the [result] monad. *)

From Stdlib Require Import Floats.
From Stdlib Require Uint63.
From Stdlib Require Import ZArith QArith Qround Qabs Qminmax Qpower Lia.
From Stdlib.Strings Require Import Byte.
From stdpp Require Import base option list sorting strings pretty gmap.

Open Scope Z_scope.

(** ** Exceptions *)

Inductive exn : Type :=
| JsError (message : string)      (* [throw new Error(message)] *)
| JsRangeError.                   (* thrown by Buffer reads out of range *)

Inductive result (A : Type) : Type :=
| Ok (a : A)
| Throw (e : exn).
Arguments Ok {A} a.
Arguments Throw {A} e.

#[global] Instance result_ret : MRet result := fun _ a => Ok a.
#[global] Instance result_bind : MBind result := fun _ _ k m =>
  match m with
  | Ok a => k a
  | Throw e => Throw e
  end.

(** [try { body } catch (error) { handler }] *)
Definition try_catch {A} (body : result A) (handler : exn -> result A) : result A :=
  match body with
  | Ok a => Ok a
  | Throw e => handler e
  end.

(** The specification's [MalformedPacket]: the codec's own [throw new Error]. *)
Definition MalformedPacket {A} (r : result A) : Prop :=
  exists message, r = Throw (JsError message).

(** ** Buffers *)

Module Buffer.

Definition t := list byte.

Definition byteZ (b : byte) : Z := Z.of_N (Byte.to_N b).

(** [buffer[i]] used as an operand of a bit operator. *)
Definition at_ (buffer : t) (i : nat) : Z :=
  match buffer !! i with
  | Some b => byteZ b
  | None => 0
  end.

Definition len (buffer : t) : Z := Z.of_nat (length buffer).

Definition readUInt16BE (buffer : t) (offset : Z) : result Z :=
  if decide (0 <= offset /\ offset + 2 <= len buffer)
  then Ok (at_ buffer (Z.to_nat offset) * 256
           + at_ buffer (Z.to_nat (offset + 1)))
  else Throw JsRangeError.

Definition readUInt32BE (buffer : t) (offset : Z) : result Z :=
  if decide (0 <= offset /\ offset + 4 <= len buffer)
  then Ok (at_ buffer (Z.to_nat offset) * 16777216
           + at_ buffer (Z.to_nat (offset + 1)) * 65536
           + at_ buffer (Z.to_nat (offset + 2)) * 256
           + at_ buffer (Z.to_nat (offset + 3)))
  else Throw JsRangeError.

(** [buffer.slice(start)] for [start >= 0]: empty once [start] reaches the
    end. *)
Definition slice (buffer : t) (start : Z) : t := drop (Z.to_nat start) buffer.

End Buffer.

(** ** Records of [types.ts] *)

Module RtpHeader.
Record t : Type := mk {
  version : Z;
  padding : bool;
  extension : bool;
  csrcCount : Z;
  marker : bool;
  payloadType : Z;
  sequenceNumber : Z;
  timestamp : Z;
  ssrc : Z
}.
End RtpHeader.

Module JitterBufferPacket.
Record t : Type := mk {
  data : Buffer.t;
  sequence : Z;
  timestamp : Z;
  bufferedAt : Z
}.
End JitterBufferPacket.

Module AudioPacket.
Record t : Type := mk {
  data : Buffer.t;
  sequence : Z;
  timestamp : float;
  arrivalTime : float;
  userId : string;
  drift : option float
}.
End AudioPacket.

Module UserTimeline.
Record t : Type := mk {
  userId : string;
  ssrc : Z;
  firstPacketTime : float;
  lastSequence : Z;
  timestampOffset : float;
  packets : list AudioPacket.t
}.
End UserTimeline.

Module TrackMetadata.
Record t : Type := mk {
  userId : string;
  ssrc : Z;
  startTimeRTP : Z;
  startTimeHR : Z * Z;
  opusSampleRate : Z;
  pcmSampleRate : Z;
  filename : string
}.
End TrackMetadata.

(** ** RTP header codec ([rtpUtils.ts]) *)

Definition parseRtpHeader (buffer : Buffer.t) : result RtpHeader.t :=
  if decide (Buffer.len buffer < 12)
  then Throw (JsError "Buffer too small for RTP header")
  else
    let firstByte := Buffer.at_ buffer 0 in
    let secondByte := Buffer.at_ buffer 1 in
    let version := Z.land (Z.shiftr firstByte 6) 3 in
    let padding := Z.land (Z.shiftr firstByte 5) 1 =? 1 in
    let extension := Z.land (Z.shiftr firstByte 4) 1 =? 1 in
    let csrcCount := Z.land firstByte 15 in
    let marker := Z.land (Z.shiftr secondByte 7) 1 =? 1 in
    let payloadType := Z.land secondByte 127 in
    sequenceNumber ← Buffer.readUInt16BE buffer 2;
    timestamp ← Buffer.readUInt32BE buffer 4;
    ssrc ← Buffer.readUInt32BE buffer 8;
    mret (RtpHeader.mk version padding extension csrcCount marker payloadType
                       sequenceNumber timestamp ssrc).

Definition extractOpusPayload (buffer : Buffer.t) : result Buffer.t :=
  header ← parseRtpHeader buffer;
  let payloadStart := 12 in
  (* Skip CSRC list if present *)
  let payloadStart :=
    if decide (RtpHeader.csrcCount header > 0)
    then payloadStart + RtpHeader.csrcCount header * 4
    else payloadStart in
  (* Skip extension if present *)
  payloadStart ←
    (if RtpHeader.extension header
     then
       if decide (Buffer.len buffer < payloadStart + 4)
       then Throw (JsError "Buffer too small for RTP extension header")
       else
         extensionLength ← Buffer.readUInt16BE buffer (payloadStart + 2);
         mret (payloadStart + (4 + extensionLength * 4))
     else mret payloadStart);
  mret (Buffer.slice buffer payloadStart).

(** [hrtimeToMs]: [(hrtime[0] * 1e9 + hrtime[1]) / 1e6], as the quotient
    itself; the double the code returns is this number rounded to 53
    bits. *)
Definition hrtimeToMs (hrtime : Z * Z) : Q :=
  (inject_Z (hrtime.1 * 1000000000 + hrtime.2) / inject_Z 1000000)%Q.

(** ** Jitter buffer ([jitterBuffer.ts]) *)

(** The readings of [Date.now()] one call takes, in the order it takes
    them. *)
Definition Clock : Type := nat -> Z.

Module JitterBuffer.
Import JitterBufferPacket.

Definition TARGET_DELAY_MS : Z := 150.
Definition MAX_JITTER_MS : Z := 60.
Definition SAMPLE_RATE : Z := 48000.
Definition FRAME_DURATION_MS : Z := 20.

Record t : Type := mk {
  packetQueue : list JitterBufferPacket.t;
  lastFlushTime : Z;
  expectedSequence : Z;
  isInitialized : bool
}.

(** [new JitterBuffer()] *)
Definition new : t := mk [] 0 0 false.

(** [Array.prototype.sort((a, b) => a.sequence - b.sequence)].  The sort
    of Node 18 is stable, and a stable sort by a total preorder has one
    result; it is written here as the insertion sort that puts every
    element behind the elements that do not compare greater. *)
Fixpoint sort_insert (p : JitterBufferPacket.t)
    (sorted : list JitterBufferPacket.t) : list JitterBufferPacket.t :=
  match sorted with
  | [] => [p]
  | q :: rest =>
      if decide (sequence p - sequence q < 0)
      then p :: q :: rest
      else q :: sort_insert p rest
  end.

Definition sort (queue : list JitterBufferPacket.t) : list JitterBufferPacket.t :=
  foldl (fun sorted p => sort_insert p sorted) [] queue.

(** [bufferPacket(packet)]; [now] is its reading of [Date.now()]. *)
Definition bufferPacket (jb : t) (packet : JitterBufferPacket.t) (now : Z) : t :=
  let queue :=
    packetQueue jb ++
      [JitterBufferPacket.mk (data packet) (sequence packet)
                             (timestamp packet) now] in
  (* Initialize sequence tracking on first packet *)
  let '(expected, initialized) :=
    if negb (isInitialized jb)
    then (sequence packet, true)
    else (expectedSequence jb, isInitialized jb) in
  (* Sort by sequence number to handle reordering *)
  mk (sort queue) (lastFlushTime jb) expected initialized.

Definition shouldFlush (jb : t) (currentTime : Z) : bool :=
  match packetQueue jb with
  | [] => false
  | oldestPacket :: _ =>
      let bufferDelay := currentTime - bufferedAt oldestPacket in
      (* Flush if buffer delay exceeds target or on timer interval *)
      (TARGET_DELAY_MS <=? bufferDelay)
      || (FRAME_DURATION_MS <=? currentTime - lastFlushTime jb)
  end.

Definition createSilencePacket (sequence : Z) (now : Z) : JitterBufferPacket.t :=
  (* Create a minimal Opus silence frame (20ms of silence) *)
  let silenceFrame := [xf8; xff; xfe] in
  JitterBufferPacket.mk silenceFrame sequence 0 now.

(** The loop of [flush]:
    [for (let i = 0; i < expectedPackets && queue.length > 0; i++)].
    [slots] is [expectedPackets - i], the number of iterations the first
    condition still allows, and [reads] the number of readings of the
    clock taken so far.  The result is the queue left and the packets
    pushed on [packetsToFlush], in the order pushed. *)
Fixpoint flush_loop (clock : Clock) (expectedSequence : Z) (slots : nat)
    (i : Z) (reads : nat) (queue : list JitterBufferPacket.t)
    : list JitterBufferPacket.t * list JitterBufferPacket.t :=
  match slots, queue with
  | O, _ => (queue, [])
  | S _, [] => (queue, [])
  | S slots', _ :: _ =>
      let expectedSeq := expectedSequence + i in
      match list_find (fun p => sequence p = expectedSeq) queue with
      | Some (packetIndex, found) =>
          (* Found the expected packet *)
          let '(queue', flushed) :=
            flush_loop clock expectedSequence slots' (i + 1) reads
                       (delete packetIndex queue) in
          (queue', found :: flushed)
      | None =>
          (* Packet is missing, create silence *)
          let '(queue', flushed) :=
            flush_loop clock expectedSequence slots' (i + 1) (S reads) queue in
          (queue', createSilencePacket expectedSeq (clock reads) :: flushed)
      end
  end.

(** [Math.max(1, Math.floor(timeSpan / FRAME_DURATION_MS))] *)
Definition expectedPackets (jb : t) (currentTime : Z) : Z :=
  let oldestTime :=
    match packetQueue jb with
    | oldestPacket :: _ => bufferedAt oldestPacket
    | [] => currentTime
    end in
  let timeSpan := currentTime - oldestTime in
  Z.max 1 (timeSpan / FRAME_DURATION_MS).

(** [flush()].  The clock is read for [shouldFlush()] (reading 0), for
    [lastFlushTime] (reading 1), for [currentTime] (reading 2), and once
    for every silence packet created (readings 3, 4, ...). *)
Definition flush (jb : t) (clock : Clock) : t * list JitterBufferPacket.t :=
  if negb (shouldFlush jb (clock 0%nat))
  then (jb, [])
  else
    let lastFlush := clock 1%nat in
    (* Determine how many packets we should have received by now *)
    let currentTime := clock 2%nat in
    let expected := expectedPackets jb currentTime in
    (* Process packets up to expected count *)
    let '(queue, packetsToFlush) :=
      flush_loop clock (expectedSequence jb) (Z.to_nat expected) 0 3
                 (packetQueue jb) in
    (mk queue lastFlush (expectedSequence jb + expected) (isInitialized jb),
     packetsToFlush).

Definition getQueueLength (jb : t) : nat := length (packetQueue jb).

Definition clear (jb : t) : t := mk [] 0 0 false.

(** A use of one buffer: the calls made on it, each with the readings of
    the clock it takes. *)
Inductive call : Type :=
| BufferPacket (packet : JitterBufferPacket.t) (now : Z)
| Flush (clock : Clock)
| Clear.

(** Runs the calls in order; the result is the final buffer and the
    packets the [flush] calls returned, concatenated. *)
Fixpoint run (jb : t) (calls : list call) : t * list JitterBufferPacket.t :=
  match calls with
  | [] => (jb, [])
  | BufferPacket packet now :: rest => run (bufferPacket jb packet now) rest
  | Flush clock :: rest =>
      let '(jb', emitted) := flush jb clock in
      let '(jb'', later) := run jb' rest in
      (jb'', emitted ++ later)
  | Clear :: rest => run (clear jb) rest
  end.

Definition is_clear (c : call) : bool :=
  match c with Clear => true | _ => false end.

(** Before the first packet nothing is buffered: true of [new] and kept by
    every call. *)
Definition seeded (jb : t) : Prop :=
  isInitialized jb = false -> packetQueue jb = [].

(** No [clear()] among the calls. *)
Definition no_clear (calls : list call) : bool :=
  forallb (fun c => negb (is_clear c)) calls.

(** The buffered packet [findIndex(p => p.sequence === s)] selects, if
    there is one: the first of the queue with that sequence number. *)
Definition first_with_sequence (s : Z) (queue : list JitterBufferPacket.t)
    : option JitterBufferPacket.t :=
  snd <$> list_find (fun p => sequence p = s) queue.

(** The queue is in the order [sort] leaves it in. *)
Definition by_sequence (queue : list JitterBufferPacket.t) : Prop :=
  StronglySorted (fun a b => sequence a <= sequence b) queue.

End JitterBuffer.

(** ** Flush cycle of the stream handler ([UserStreamHandler.ts]) *)

Section UserStreamHandler.

(** The external Opus decoder ([opusscript]): a handle with a state of its
    own, whose [decode] returns PCM or throws. *)
Variable OpusScript : Type.
Variable decode : OpusScript -> Buffer.t -> OpusScript * result Buffer.t.

Record UserStreamHandler : Type := mkUserStreamHandler {
  userId : string;
  pcmStream : list Buffer.t;      (* the chunks written, oldest first *)
  jitterBuffer : JitterBuffer.t;
  opusDecoder : OpusScript;
  isActive : bool
}.

(** [this.pcmStream.write(chunk)] *)
Definition pcmStream_write (h : UserStreamHandler) (chunk : Buffer.t)
    : result UserStreamHandler :=
  Ok (mkUserStreamHandler (userId h) (pcmStream h ++ [chunk])
                          (jitterBuffer h) (opusDecoder h) (isActive h)).

(** [Buffer.alloc(3840, 0)] *)
Definition silenceBuffer : Buffer.t := replicate 3840 x00.

(** The body of the loop of [processJitterBuffer], for one packet. *)
Definition processPacket (h : UserStreamHandler)
    (packet : JitterBufferPacket.t) : result UserStreamHandler :=
  let '(decoder, decoded) :=
    decode (opusDecoder h) (JitterBufferPacket.data packet) in
  let h := mkUserStreamHandler (userId h) (pcmStream h) (jitterBuffer h)
                               decoder (isActive h) in
  try_catch
    ((* Decode Opus to PCM *)
     pcmData ← decoded;
     pcmStream_write h pcmData)
    (fun error =>
       (* Write silence for this frame
          (20ms at 48kHz stereo = 1920 samples = 3840 bytes) *)
       pcmStream_write h silenceBuffer).

Fixpoint processPackets (h : UserStreamHandler)
    (packets : list JitterBufferPacket.t) : result UserStreamHandler :=
  match packets with
  | [] => Ok h
  | packet :: rest => h' ← processPacket h packet; processPackets h' rest
  end.

Definition processJitterBuffer (h : UserStreamHandler) (clock : Clock)
    : result UserStreamHandler :=
  if negb (isActive h) then Ok h
  else
    let '(jb, packets) := JitterBuffer.flush (jitterBuffer h) clock in
    processPackets
      (mkUserStreamHandler (userId h) (pcmStream h) jb (opusDecoder h)
                           (isActive h))
      packets.

(** What one pass over [packets] appends to the PCM stream, told from the
    decoder's side: the PCM of every frame it decodes, 3840 zero bytes for
    every frame it throws on. *)
Inductive concealed : OpusScript -> list JitterBufferPacket.t ->
                      list Buffer.t -> OpusScript -> Prop :=
| concealed_nil d : concealed d [] [] d
| concealed_decoded d d' d'' packet pcm packets blocks :
    decode d (JitterBufferPacket.data packet) = (d', Ok pcm) ->
    concealed d' packets blocks d'' ->
    concealed d (packet :: packets) (pcm :: blocks) d''
| concealed_failed d d' d'' packet e packets blocks :
    decode d (JitterBufferPacket.data packet) = (d', Throw e) ->
    concealed d' packets blocks d'' ->
    concealed d (packet :: packets) (replicate 3840 x00 :: blocks) d''.

End UserStreamHandler.

Arguments userId {OpusScript} _.
Arguments pcmStream {OpusScript} _.
Arguments jitterBuffer {OpusScript} _.
Arguments opusDecoder {OpusScript} _.
Arguments isActive {OpusScript} _.
Arguments mkUserStreamHandler {OpusScript}.
Arguments pcmStream_write {OpusScript}.

(** ** Drift corrector (class [DriftCorrector]) *)

(** [array.reduce((acc, x, i) => f(acc, x, i), init)] *)
Fixpoint reduce_from {A B} (f : B -> A -> nat -> B) (i : nat) (acc : B)
    (l : list A) : B :=
  match l with
  | [] => acc
  | x :: rest => reduce_from f (S i) (f acc x i) rest
  end.

Definition reduce {A B} (f : B -> A -> nat -> B) (init : B) (l : list A) : B :=
  reduce_from f 0 init l.

(** The numbers of the correction path: a drift estimate divides by a
    sample rate read from a metadata file, and [correctDrift] takes any
    number, so they can be infinite or NaN.  [JsNum.t] keeps those apart; a
    finite number is a rational, and zero has no sign. *)
Module JsNum.

Inductive t : Type :=
| Fin (q : Q)
| Inf (positive : bool)
| NaN.

Definition of_Z (z : Z) : t := Fin (inject_Z z).

Definition div (a b : t) : t :=
  match a, b with
  | NaN, _ | _, NaN => NaN
  | Fin x, Fin y =>
      if Qeq_bool y 0
      then match (x ?= 0)%Q with
           | Gt => Inf true
           | Lt => Inf false
           | Eq => NaN
           end
      else Fin (x / y)
  | Fin _, Inf _ => Fin 0
  | Inf s, Fin y => if Qle_bool 0 y then Inf s else Inf (negb s)
  | Inf _, Inf _ => NaN
  end.

Definition mul (a b : t) : t :=
  match a, b with
  | NaN, _ | _, NaN => NaN
  | Fin x, Fin y => Fin (x * y)
  | Inf s, Fin y | Fin y, Inf s =>
      match (y ?= 0)%Q with
      | Gt => Inf s
      | Lt => Inf (negb s)
      | Eq => NaN
      end
  | Inf s, Inf s' => Inf (Bool.eqb s s')
  end.

Definition sub (a b : t) : t :=
  match a, b with
  | NaN, _ | _, NaN => NaN
  | Fin x, Fin y => Fin (x - y)
  | Inf s, Fin _ => Inf s
  | Fin _, Inf s => Inf (negb s)
  | Inf s, Inf s' => if Bool.eqb s s' then NaN else Inf s
  end.

(** [Math.abs] *)
Definition abs (a : t) : t :=
  match a with
  | Fin x => Fin (Qabs x)
  | Inf _ => Inf true
  | NaN => NaN
  end.

(** [Math.min(a, b)] *)
Definition min (a b : t) : t :=
  match a, b with
  | NaN, _ | _, NaN => NaN
  | Fin x, Fin y => Fin (Qmin x y)
  | Inf false, _ | _, Inf false => Inf false
  | Inf true, other | other, Inf true => other
  end.

(** [a > b] *)
Definition gtb (a b : t) : bool :=
  match a, b with
  | NaN, _ | _, NaN => false
  | Fin x, Fin y => negb (Qle_bool x y)
  | Inf s, Inf s' => s && negb s'
  | Inf s, Fin _ => s
  | Fin _, Inf s => negb s
  end.

(** [a >= b] *)
Definition geb (a b : t) : bool :=
  match a, b with
  | NaN, _ | _, NaN => false
  | Fin x, Fin y => Qle_bool y x
  | Inf s, Inf s' => s || negb s'
  | Inf s, Fin _ => s
  | Fin _, Inf s => negb s
  end.

(** [Math.floor] *)
Definition floor (a : t) : t :=
  match a with
  | Fin x => Fin (inject_Z (Qfloor x))
  | other => other
  end.

(** [a < b] *)
Definition ltb (a b : t) : bool := gtb b a.

(** [Math.max(a, b)] *)
Definition max (a b : t) : t :=
  match a, b with
  | NaN, _ | _, NaN => NaN
  | Fin x, Fin y => Fin (Qmax x y)
  | Inf true, _ | _, Inf true => Inf true
  | Inf false, other | other, Inf false => other
  end.

End JsNum.

Module DriftInfo.
Record t : Type := mk {
  driftMs : float;
  confidence : float;
  samplesAnalyzed : nat
}.
End DriftInfo.

Module DriftCorrector.

Definition DRIFT_THRESHOLD_MS : Q := 10.
Definition CORRECTION_INTERVAL : Z := 30000.
Definition MIN_SAMPLES_FOR_ANALYSIS : nat := 100.

Record Regression : Type := mkRegression {
  slope : float;
  intercept : float;
  r2 : float
}.

(** The length of an array, as a number. *)
Definition of_length (n : nat) : float :=
  PrimFloat.of_uint63 (Uint63.of_Z (Z.of_nat n)).

(** [values[i]]; past the end it is [undefined], which arithmetic turns
    into NaN. *)
Definition index (values : list float) (i : nat) : float :=
  default nan (values !! i).

Section Regression.

(** [Math.pow]: ECMAScript leaves its result implementation-approximated,
    so it is a parameter of the regression. *)
Variable Math_pow : float -> float -> float.

Definition calculateLinearRegression (xValues yValues : list float)
    : Regression :=
  let n := length xValues in
  if decide (n < 2)%nat
  then mkRegression 1 0 0
  else
    let n := of_length n in
    let sumX := reduce (fun a b _ => a + b)%float 0%float xValues in
    let sumY := reduce (fun a b _ => a + b)%float 0%float yValues in
    let sumXY :=
      reduce (fun sum x i => sum + x * index yValues i)%float 0%float
             xValues in
    let sumXX := reduce (fun sum x _ => sum + x * x)%float 0%float xValues in
    let sumYY := reduce (fun sum y _ => sum + y * y)%float 0%float yValues in
    let slope :=
      ((n * sumXY - sumX * sumY) / (n * sumXX - sumX * sumX))%float in
    let intercept := ((sumY - slope * sumX) / n)%float in
    (* Calculate R-squared *)
    let meanY := (sumY / n)%float in
    let ssRes :=
      reduce (fun sum y i =>
                let predicted := (slope * index xValues i + intercept)%float in
                (sum + Math_pow (y - predicted) 2)%float)
             0%float yValues in
    let ssTot :=
      reduce (fun sum y _ => (sum + Math_pow (y - meanY) 2)%float)
             0%float yValues in
    let r2 := if (ssTot =? 0)%float then 1%float
              else (1 - ssRes / ssTot)%float in
    mkRegression slope intercept r2.

Definition detectDrift (timeline : UserTimeline.t) : DriftInfo.t :=
  let packets := UserTimeline.packets timeline in
  if decide (length packets < MIN_SAMPLES_FOR_ANALYSIS)%nat
  then DriftInfo.mk 0 0 (length packets)
  else
    (* Use linear regression to detect drift trend *)
    let regression :=
      calculateLinearRegression
        (map AudioPacket.arrivalTime packets)
        (* Convert RTP timestamp to ms *)
        (map (fun p => (AudioPacket.timestamp p / 48)%float) packets) in
    (* Drift = difference from expected 1:1 ratio *)
    let driftRatio := (slope regression - 1)%float in
    let driftMs := (driftRatio * 1000)%float in
    DriftInfo.mk driftMs (r2 regression) (length packets).

End Regression.

(** An argument of the FFmpeg command line; the tempo filter
    [atempo=${clampedFactor}] keeps its factor as a number. *)
Inductive ffarg : Type :=
| Arg (s : string)
| Atempo (clampedFactor : JsNum.t).

(** The command line of the tempo-adjusted re-render. *)
Definition tempoArgs (inputFile : string) (clampedFactor : JsNum.t)
    (outputFile : string) : list ffarg :=
  [Arg "-f"; Arg "s16le";
   Arg "-ar"; Arg "48000";
   Arg "-ac"; Arg "2";
   Arg "-i"; Arg inputFile;
   Arg "-filter:a"; Atempo clampedFactor;
   Arg "-f"; Arg "s16le";
   Arg "-y"; Arg outputFile].

(** The specification's clamping of [x] into [[lo, hi]]. *)
Definition clamp (lo hi x : Q) : Q :=
  if Qlt_le_dec x lo then lo
  else if Qlt_le_dec hi x then hi
  else x.

Section correctDrift.

(** [path.join] and the FFmpeg child process are outside the core. *)
Variable join : string -> string -> string.
Variable executeFFmpeg : list ffarg -> result unit.

(** [correctDrift(inputFile, driftMs, outputDir)] with its reading [now]
    of [Date.now()]: the command lines handed to [executeFFmpeg], in
    order, and what the promise settles to. *)
Definition correctDrift (inputFile : string) (driftMs : JsNum.t)
    (outputDir : string) (now : Z) : list (list ffarg) * result string :=
  if JsNum.ltb (JsNum.abs driftMs) (JsNum.Fin DRIFT_THRESHOLD_MS)
  then ([], Ok inputFile) (* No correction needed *)
  else
    (* Calculate stretch factor *)
    let stretchFactor :=
      JsNum.sub (JsNum.Fin 1) (JsNum.div driftMs (JsNum.Fin 1000)) in
    (* Clamp stretch factor to reasonable bounds *)
    let clampedFactor :=
      JsNum.max (JsNum.Fin (95 # 100))
                (JsNum.min (JsNum.Fin (105 # 100)) stretchFactor) in
    let outputFile :=
      join outputDir ("corrected_" +:+ pretty now +:+ ".pcm") in
    let args := tempoArgs inputFile clampedFactor outputFile in
    ([args], _ ← executeFFmpeg args; mret outputFile).

End correctDrift.

End DriftCorrector.

(** Results of the specification's formulas: [None] where a formula
    divides by zero. *)
Module Num.

Definition t : Type := option Q.

Definition of_Q (q : Q) : t := Some q.
Definition div (a b : t) : t :=
  x ← a; y ← b; if Qeq_bool y 0 then None else Some (x / y)%Q.

(** Equality of two results as numbers. *)
Definition eq (a b : t) : Prop := option_Forall2 Qeq a b.

End Num.

(** ** Ordinary least squares, as the specification words it

    The line fitted to the points [(x_i, y_i)] has slope
    [Sxy / Sxx], the co-deviation of x and y over the squared deviation of
    x, and passes through the point of the means; R² is one minus the
    residual sum of squares over the total sum of squares, and 1 when the
    total is zero. *)
Module OLS.

Definition sum (l : list Q) : Q := foldr Qplus 0%Q l.

Definition count (l : list Q) : Q := inject_Z (Z.of_nat (length l)).

Definition mean (l : list Q) : Q := (sum l / count l)%Q.

Definition Sxy (xs ys : list Q) : Q :=
  sum (zip_with (fun x y => (x - mean xs) * (y - mean ys))%Q xs ys).

Definition Sxx (xs : list Q) : Q :=
  sum ((fun x => (x - mean xs) ^ 2)%Q <$> xs).

Definition slope (xs ys : list Q) : Num.t :=
  Num.div (Num.of_Q (Sxy xs ys)) (Num.of_Q (Sxx xs)).

Definition intercept (xs ys : list Q) : Num.t :=
  b ← slope xs ys; Some (mean ys - b * mean xs)%Q.

(** Residual sum of squares of the line [y = b * x + a]. *)
Definition ssRes (xs ys : list Q) (b a : Q) : Q :=
  sum (zip_with (fun x y => (y - (b * x + a)) ^ 2)%Q xs ys).

(** Total sum of squares. *)
Definition ssTot (ys : list Q) : Q :=
  sum ((fun y => (y - mean ys) ^ 2)%Q <$> ys).

Definition r_squared (xs ys : list Q) : Num.t :=
  if Qeq_bool (ssTot ys) 0 then Num.of_Q 1
  else
    b ← slope xs ys; a ← intercept xs ys;
    Some (1 - ssRes xs ys b a / ssTot ys)%Q.

End OLS.

(** The point [(x, y)] lies on the line [y = a + b x]. *)
Definition on_line (a b x y : Q) : Prop := (y == a + b * x)%Q.

#[global] Instance Qeq_decision : RelDecision Qeq := Qeq_dec.
#[global] Instance on_line_dec a b x y : Decision (on_line a b x y) :=
  Qeq_dec _ _.

(** The rational a finite double stands for (0 for one that is not
    finite). *)
Definition exactQ (f : float) : Q :=
  match Prim2SF f with
  | S754_finite negative mantissa exponent =>
      let magnitude :=
        if 0 <=? exponent
        then inject_Z (Z.pos mantissa * 2 ^ exponent)
        else Z.pos mantissa # Z.to_pos (2 ^ (- exponent)) in
      if negative then (- magnitude)%Q else magnitude
  | _ => 0%Q
  end.

(** ** Timeline of the mix ([mix.ts]) *)

(** [Math.round]: the nearest integer, a tie going up. *)
Definition Math_round (x : Q) : Z := Qfloor (x + (1 # 2)).

Module AudioMixer.

(** [Math.min(...values)] of a list that is not empty. *)
Definition Math_min (first : Q) (others : list Q) : Q := foldl Qmin first others.

(** [hrtimeToMs(track.startTimeHR)] *)
Definition trackStartTime (track : TrackMetadata.t) : Q :=
  hrtimeToMs (TrackMetadata.startTimeHR track).

Definition calculateGlobalStartTime (tracks : list TrackMetadata.t) : Q :=
  match map trackStartTime tracks with
  | [] => 0
  | first :: others => Math_min first others
  end.

(** The body of the loop of [calculateTrackDelays]. *)
Definition setTrackDelay (globalStartTime : Q) (delays : gmap string Z)
    (track : TrackMetadata.t) : gmap string Z :=
  let delayMs := Math_round (trackStartTime track - globalStartTime) in
  (* Ensure non-negative *)
  <[TrackMetadata.userId track := Z.max 0 delayMs]> delays.

Definition calculateTrackDelays (tracks : list TrackMetadata.t)
    (globalStartTime : Q) : gmap string Z :=
  foldl (setTrackDelay globalStartTime) ∅ tracks.

End AudioMixer.

(** ** More of the codec ([rtpUtils.ts]) *)


(** ** More on the use of a jitter buffer *)

(** [packet] as [bufferPacket] puts it in the queue: with [bufferedAt]
    overwritten by the time of buffering. *)
Definition stamped (packet : JitterBufferPacket.t) (now : Z)
    : JitterBufferPacket.t :=
  JitterBufferPacket.mk (JitterBufferPacket.data packet)
                        (JitterBufferPacket.sequence packet)
                        (JitterBufferPacket.timestamp packet) now.

(** The packets a list of calls buffers, as they are put in the queue. *)
Definition buffered_by (calls : list JitterBuffer.call)
    : list JitterBufferPacket.t :=
  omap (fun c => match c with
                 | JitterBuffer.BufferPacket packet now => Some (stamped packet now)
                 | _ => None
                 end) calls.

(** [bufferPacket] called for each of [arrivals] in turn. *)
Definition bufferPackets (jb : JitterBuffer.t)
    (arrivals : list (JitterBufferPacket.t * Z)) : JitterBuffer.t :=
  foldl (fun jb arrival => JitterBuffer.bufferPacket jb arrival.1 arrival.2)
        jb arrivals.

(** ** The rest of the stream handler ([UserStreamHandler.ts]) *)

Definition OPUS_SAMPLE_RATE : Z := 48000.
Definition OPUS_FRAME_DURATION : Z := 20.
Definition CHANNELS : Z := 2.

Section StreamHandler.

Variable OpusScript : Type.
Variable decode : OpusScript -> Buffer.t -> OpusScript * result Buffer.t.

(** The fields of the handler the flush cycle does not touch, around the
    ones it does ([worker]); [flushInterval] and [pcmEnded] tell whether
    the timer is set and whether [pcmStream.end()] was called. *)
Record StreamHandler : Type := mkStreamHandler {
  worker : UserStreamHandler OpusScript;
  hasCapturedMetadata : bool;
  metadata : option TrackMetadata.t;
  flushInterval : bool;
  pcmEnded : bool
}.

(** The handler as its constructor leaves it. *)
Definition newStreamHandler (user : string) (decoder : OpusScript)
    : StreamHandler :=
  mkStreamHandler
    (mkUserStreamHandler user [] JitterBuffer.new decoder true)
    false None true false.

Definition with_jitterBuffer (h : StreamHandler) (jb : JitterBuffer.t)
    : StreamHandler :=
  mkStreamHandler
    (mkUserStreamHandler (userId (worker h)) (pcmStream (worker h)) jb
                         (opusDecoder (worker h)) (isActive (worker h)))
    (hasCapturedMetadata h) (metadata h) (flushInterval h) (pcmEnded h).

(** [captureMetadata(header, arrivalTime)], up to its write of the sidecar
    file, and the [hasCapturedMetadata = true] that follows the call;
    [timestamp] and [hrtime] are its readings of [Date.now()] and
    [process.hrtime()]. *)
Definition captureMetadata (h : StreamHandler) (header : RtpHeader.t)
    (arrivalTime timestamp : Z) (hrtime : Z * Z) : StreamHandler :=
  let pcmFilename := userId (worker h) +:+ "_" +:+ pretty timestamp +:+ ".pcm" in
  mkStreamHandler
    (worker h) true
    (Some (TrackMetadata.mk (userId (worker h)) (RtpHeader.ssrc header)
                            (RtpHeader.timestamp header) hrtime
                            OPUS_SAMPLE_RATE OPUS_SAMPLE_RATE pcmFilename))
    (flushInterval h) (pcmEnded h).

(** The readings one [handlePacket] takes: [Date.now()] for the arrival
    time, [Date.now()] and [process.hrtime()] in [captureMetadata], and
    [Date.now()] in [bufferPacket]. *)
Record Readings : Type := mkReadings {
  arrivalTime : Z;
  metadataTime : Z;
  hrtime : Z * Z;
  bufferTime : Z
}.

(** [handlePacket(chunk)].  The [try] block runs up to its first throw, and
    the [catch] only logs: what was assigned before the throw stays. *)
Definition handlePacket (h : StreamHandler) (chunk : Buffer.t)
    (r : Readings) : StreamHandler :=
  if negb (isActive (worker h)) then h
  else
    match parseRtpHeader chunk with
    | Throw _ => h
    | Ok header =>
        (* Capture metadata on first packet *)
        let h :=
          if negb (hasCapturedMetadata h)
          then captureMetadata h header (arrivalTime r) (metadataTime r)
                               (hrtime r)
          else h in
        (* Extract Opus payload *)
        match extractOpusPayload chunk with
        | Throw _ => h
        | Ok opusPayload =>
            (* Buffer the packet for jitter correction *)
            let jitterPacket :=
              JitterBufferPacket.mk opusPayload
                                    (RtpHeader.sequenceNumber header)
                                    (RtpHeader.timestamp header)
                                    (arrivalTime r) in
            with_jitterBuffer
              h (JitterBuffer.bufferPacket (jitterBuffer (worker h))
                                           jitterPacket (bufferTime r))
        end
    end.

(** [handlePacket] for each chunk in turn. *)
Definition handlePackets (h : StreamHandler)
    (chunks : list (Buffer.t * Readings)) : StreamHandler :=
  foldl (fun h chunk => handlePacket h chunk.1 chunk.2) h chunks.

(** [stop()]; [clock] holds the readings of its call of
    [processJitterBuffer]. *)
Definition stop (h : StreamHandler) (clock : Clock) : result StreamHandler :=
  if negb (isActive (worker h)) then Ok h
  else
    let w := worker h in
    let w := mkUserStreamHandler (userId w) (pcmStream w) (jitterBuffer w)
                                 (opusDecoder w) false in
    (* Clear the processing interval *)
    let interval := false in
    (* Process any remaining packets *)
    w ← processJitterBuffer OpusScript decode w clock;
    (* Close the PCM stream *)
    let ended := true in
    (* Clear the jitter buffer *)
    let w := mkUserStreamHandler (userId w) (pcmStream w)
                                 (JitterBuffer.clear (jitterBuffer w))
                                 (opusDecoder w) (isActive w) in
    Ok (mkStreamHandler w (hasCapturedMetadata h) (metadata h) interval ended).

(** [handleStreamEnd()] and [handleStreamError(error)] *)
Definition handleStreamEnd (h : StreamHandler) (clock : Clock)
    : result StreamHandler := stop h clock.

(** [getBufferStatus()] *)
Definition getBufferStatus (h : StreamHandler) : nat * bool :=
  (JitterBuffer.getQueueLength (jitterBuffer (worker h)), isActive (worker h)).

End StreamHandler.

Arguments worker {OpusScript} _.
Arguments hasCapturedMetadata {OpusScript} _.
Arguments metadata {OpusScript} _.
Arguments flushInterval {OpusScript} _.
Arguments pcmEnded {OpusScript} _.
Arguments mkStreamHandler {OpusScript}.
Arguments newStreamHandler {OpusScript}.
Arguments with_jitterBuffer {OpusScript}.
Arguments captureMetadata {OpusScript}.
Arguments handlePacket {OpusScript}.
Arguments handlePackets {OpusScript}.
Arguments getBufferStatus {OpusScript}.

(** ** The mix command ([mix.ts]) *)

Inductive OutputFormat : Type := wav | ogg | mp3.
Inductive Quality : Type := low | medium | high.

Record MixingOptions : Type := mkMixingOptions {
  outputFormat : OutputFormat;
  quality : Quality;
  normalize : bool;
  removeNoise : bool
}.

Definition DEFAULT_OPTIONS : MixingOptions :=
  mkMixingOptions wav high false false.

(** The format as it is spliced into the output name. *)
Definition formatName (format : OutputFormat) : string :=
  match format with wav => "wav" | ogg => "ogg" | mp3 => "mp3" end.

(** [parts.join(separator)] *)
Definition Array_join (separator : string) (parts : list string) : string :=
  match parts with
  | [] => ""
  | first :: others =>
      foldl (fun joined part => joined +:+ separator +:+ part) first others
  end.

Section Mixer.

(** [path.join], the directory of the recordings and the FFmpeg child
    process are outside the core. *)
Variable join : string -> string -> string.
Variable recordingsDir : string.
Variable executeFFmpeg : list string -> result unit.

(** The arguments that declare one track as an input. *)
Definition inputArgs (track : TrackMetadata.t) : list string :=
  let pcmPath := join recordingsDir (TrackMetadata.filename track) in
  ["-f"; "s16le";
   "-ar"; pretty (TrackMetadata.pcmSampleRate track);
   "-ac"; "2";
   "-i"; pcmPath].

(** The [adelay] stage of the track at [index]. *)
Definition adelayFilter (trackDelays : gmap string Z) (index : nat)
    (track : TrackMetadata.t) : string :=
  (* trackDelays.get(track.userId) || 0 *)
  let delayMs := default 0 (trackDelays !! TrackMetadata.userId track) in
  "[" +:+ pretty index +:+ ":a]adelay=delays=" +:+ pretty delayMs
      +:+ ":all=true[delayed" +:+ pretty index +:+ "]".

Definition mixFilter (tracks : list TrackMetadata.t)
    (options : MixingOptions) : string :=
  let mixInputs :=
    Array_join ""
               (imap (fun index _ => "[delayed" +:+ pretty index +:+ "]")
                     tracks) in
  let mixFilter :=
    mixInputs +:+ "amix=inputs=" +:+ pretty (length tracks)
              +:+ ":duration=longest:dropout_transition=0" in
  let mixFilter :=
    if negb (normalize options) then mixFilter +:+ ":normalize=0"
    else mixFilter in
  mixFilter +:+ "[mixed]".

Definition filterComplexParts (tracks : list TrackMetadata.t)
    (trackDelays : gmap string Z) (options : MixingOptions) : list string :=
  (* Create adelay filters for each track *)
  imap (adelayFilter trackDelays) tracks
  (* Create amix filter *)
  ++ [mixFilter tracks options]
  (* Add noise reduction if requested *)
  ++ (if removeNoise options
      then ["[mixed]afftdn=nr=20:nf=-25[denoised]";
            "[denoised]aresample=async=1:first_pts=0[final]"]
      else ["[mixed]aresample=async=1:first_pts=0[final]"]).

(** Output settings based on format and quality. *)
Definition codecArgs (options : MixingOptions) : list string :=
  match outputFormat options with
  | wav => ["-c:a"; "pcm_s16le"]
  | ogg =>
      let oggQuality :=
        match quality options with
        | high => "7" | medium => "5" | low => "3"
        end in
      ["-c:a"; "libvorbis"; "-q:a"; oggQuality]
  | mp3 =>
      let mp3Bitrate :=
        match quality options with
        | high => "320k" | medium => "192k" | low => "128k"
        end in
      ["-c:a"; "libmp3lame"; "-b:a"; mp3Bitrate]
  end.

Definition outputPath (sessionName : string) (options : MixingOptions)
    : string :=
  join recordingsDir
       (sessionName +:+ "_mixed." +:+ formatName (outputFormat options)).

Definition ffmpegArgs (tracks : list TrackMetadata.t)
    (trackDelays : gmap string Z) (sessionName : string)
    (options : MixingOptions) : list string :=
  (* Add input files *)
  concat (inputArgs <$> tracks)
  (* Add filter complex *)
  ++ ["-filter_complex";
      Array_join "; " (filterComplexParts tracks trackDelays options)]
  ++ ["-map"; "[final]"]
  ++ codecArgs options
  (* Overwrite output file *)
  ++ ["-y"; outputPath sessionName options].

(** [generateMixCommand]: the command lines handed to [executeFFmpeg], and
    what the promise settles to. *)
Definition generateMixCommand (tracks : list TrackMetadata.t)
    (trackDelays : gmap string Z) (sessionName : string)
    (options : MixingOptions) : list (list string) * result string :=
  let args := ffmpegArgs tracks trackDelays sessionName options in
  ([args], _ ← executeFFmpeg args; mret (outputPath sessionName options)).

(** [mixSession(sessionId, options)], from the merged options on;
    [loaded] is what [loadSessionTracks] settles to. *)
Definition mixSession (loaded : result (list TrackMetadata.t))
    (sessionId : string) (mixOptions : MixingOptions)
    : list (list string) * result string :=
  match loaded with
  | Throw e => ([], Throw e)
  | Ok tracks =>
      if decide (length tracks = 0%nat)
      then ([], Throw (JsError ("No tracks found for session " +:+ sessionId)))
      else
        (* Calculate timing offsets *)
        let globalStartTime := AudioMixer.calculateGlobalStartTime tracks in
        let trackDelays :=
          AudioMixer.calculateTrackDelays tracks globalStartTime in
        (* Generate FFmpeg command *)
        generateMixCommand tracks trackDelays sessionId mixOptions
  end.

(** [mixFiles(metadataFiles, outputName, options)], from the merged
    options on; [tracks] are the metadata files that could be read and
    [now] is the reading of [Date.now()]. *)
Definition mixFiles (tracks : list TrackMetadata.t)
    (outputName : option string) (mixOptions : MixingOptions) (now : Z)
    : list (list string) * result string :=
  if decide (length tracks = 0%nat)
  then ([], Throw (JsError "No valid tracks found from metadata files"))
  else
    (* Calculate timing *)
    let globalStartTime := AudioMixer.calculateGlobalStartTime tracks in
    let trackDelays := AudioMixer.calculateTrackDelays tracks globalStartTime in
    (* Generate output name if not provided *)
    let sessionName :=
      match outputName with
      | Some name => if decide (name = "") then "manual_mix_" +:+ pretty now
                     else name
      | None => "manual_mix_" +:+ pretty now
      end in
    generateMixCommand tracks trackDelays sessionName mixOptions.

End Mixer.

(** ** Drift estimate of a recorded track ([driftCorrection.ts]) *)

(** The [DriftInfo] of an estimate. *)
Module DriftEstimate.
Record t : Type := mk {
  driftMs : JsNum.t;
  confidence : JsNum.t;
  samplesAnalyzed : JsNum.t
}.
End DriftEstimate.

(** What one turn of the loop of [analyzeAndCorrectSession] reads from
    outside: what [fs.stat] settles to (the size of the file), the reading
    of [Date.now()] of the estimate and the one of [correctDrift]. *)
Record Observed : Type := mkObserved {
  stats : result Z;
  currentTime : Z;
  renderTime : Z
}.

Section Session.

Import DriftCorrector.

Variable join : string -> string -> string.
Variable executeFFmpeg : list ffarg -> result unit.

Definition estimateDriftFromMetadata (track : TrackMetadata.t)
    (stats : result Z) (currentTime : Z) : DriftEstimate.t :=
  match stats with
  | Throw _ => DriftEstimate.mk (JsNum.Fin 0) (JsNum.Fin 0) (JsNum.Fin 0)
  | Ok size =>
      (* PCM s16le stereo: 4 bytes per sample (2 bytes * 2 channels) *)
      let bytesPerSecond := TrackMetadata.pcmSampleRate track * 4 in
      let actualDurationMs :=
        JsNum.mul (JsNum.div (JsNum.of_Z size) (JsNum.of_Z bytesPerSecond))
                  (JsNum.Fin 1000) in
      let trackStartTime := hrtimeToMs (TrackMetadata.startTimeHR track) in
      let expectedDurationMs := (inject_Z currentTime - trackStartTime)%Q in
      let driftMs :=
        JsNum.sub actualDurationMs (JsNum.Fin expectedDurationMs) in
      (* Rough confidence estimate *)
      let confidence :=
        JsNum.min (JsNum.Fin 1)
                  (JsNum.div (JsNum.abs driftMs) (JsNum.Fin 100)) in
      DriftEstimate.mk
        (* Ignore huge discrepancies *)
        (if JsNum.gtb (JsNum.abs driftMs) (JsNum.Fin 1000)
         then JsNum.Fin 0 else driftMs)
        confidence
        (* Estimate packet count *)
        (JsNum.floor (JsNum.div actualDurationMs (JsNum.Fin 20)))
  end.

(** One turn of the loop of [analyzeAndCorrectSession]: the command lines
    handed to FFmpeg and the file recorded for the track. *)
Definition analyzeTrack (recordingsDir : string) (track : TrackMetadata.t)
    (seen : Observed) : list (list ffarg) * string :=
  let driftInfo :=
    estimateDriftFromMetadata track (stats seen) (currentTime seen) in
  if JsNum.geb (JsNum.abs (DriftEstimate.driftMs driftInfo))
               (JsNum.Fin DRIFT_THRESHOLD_MS)
     && JsNum.gtb (DriftEstimate.confidence driftInfo) (JsNum.Fin (7 # 10))
  then
    let inputPath := join recordingsDir (TrackMetadata.filename track) in
    let '(commands, correctedPath) :=
      correctDrift join executeFFmpeg inputPath
                   (DriftEstimate.driftMs driftInfo) recordingsDir
                   (renderTime seen) in
    match correctedPath with
    | Ok correctedPath => (commands, correctedPath)
    | Throw _ =>
        (* Use original file if correction fails *)
        (commands, join recordingsDir (TrackMetadata.filename track))
    end
  else ([], join recordingsDir (TrackMetadata.filename track)).

Definition analyzeAndCorrectSession
    (tracks : list (TrackMetadata.t * Observed)) (recordingsDir : string)
    : list (list ffarg) * gmap string string :=
  foldl (fun '(commands, correctedFiles) '(track, seen) =>
           let '(more, file) := analyzeTrack recordingsDir track seen in
           (commands ++ more,
            <[TrackMetadata.userId track := file]> correctedFiles))
        ([], ∅) tracks.

End Session.

(** ** Inputs of the examples *)

(** A 16-byte packet: version 2, extension flag set, no CSRC, and an
    extension header (profile 0xBEDE) declaring one 32-bit word of
    extension data, which the buffer does not hold. *)
Definition truncated_extension_packet : Buffer.t :=
  [x90; x78; x00; x01;  x00; x00; x00; x00;  x00; x00; x00; x01;
   xbe; xde; x00; x01].

(** A 22-byte packet with a complete extension (one word) and a payload
    of two bytes. *)
Definition extension_packet : Buffer.t :=
  [x90; x78; x00; x01;  x00; x00; x00; x00;  x00; x00; x00; x01;
   xbe; xde; x00; x01;  x11; x22; x33; x44;  xaa; xbb].

(** A buffer expecting sequence number 4 that holds packet 4 alone,
    buffered at time 0. *)
Definition lone_packet : JitterBufferPacket.t := JitterBufferPacket.mk [x01] 4 960 0.
Definition lone_packet_buffer : JitterBuffer.t :=
  JitterBuffer.mk [lone_packet] 0 4 true.

(** Packet 10 is buffered and flushed, which moves [expectedSequence] to
    11; then packets 5 and 3 arrive, in this order. *)
Definition packet_numbered (s : Z) : JitterBufferPacket.t :=
  JitterBufferPacket.mk [x01] s (s * 960) 0.
Definition buffer_past_10 : JitterBuffer.t :=
  (JitterBuffer.run JitterBuffer.new
     [JitterBuffer.BufferPacket (packet_numbered 10) 0;
      JitterBuffer.Flush (fun _ => 20)]).1.
Definition late_5 : JitterBufferPacket.t := JitterBufferPacket.mk [x01] 5 4800 30.
Definition late_3 : JitterBufferPacket.t := JitterBufferPacket.mk [x01] 3 2880 35.

(** A stand-in decoder without state: it throws on the Opus silence frame
    and on empty data, and returns four zero bytes for anything else. *)
Definition picky_decode (d : unit) (frame : Buffer.t) : unit * result Buffer.t :=
  (d, match frame with
      | [] => Throw (JsError "empty frame")
      | [xf8; xff; xfe] => Throw (JsError "corrupted stream")
      | _ => Ok [x00; x00; x00; x00]
      end).

(** A handler whose buffer expects 4 and holds packets 4 and 7. *)
Definition handler_4_7 : UserStreamHandler unit :=
  mkUserStreamHandler "alice" []
    (JitterBuffer.mk [JitterBufferPacket.mk [x01] 4 960 0;
                      JitterBufferPacket.mk [x02] 7 3840 60] 0 4 true)
    tt true.

(** Two tracks of one user, starting 100 ms and 250 ms after the clock's
    origin. *)
Definition alice_first : TrackMetadata.t :=
  TrackMetadata.mk "alice" 1 0 (0, 100000000) 48000 48000 "alice_1.pcm".
Definition alice_second : TrackMetadata.t :=
  TrackMetadata.mk "alice" 2 0 (0, 250000000) 48000 48000 "alice_2.pcm".
Definition bob_track : TrackMetadata.t :=
  TrackMetadata.mk "bob" 3 0 (0, 250000000) 48000 48000 "bob_1.pcm".
Definition carol_track : TrackMetadata.t :=
  TrackMetadata.mk "carol" 4 0 (0, 400000000) 48000 48000 "carol_1.pcm".

(** A timeline of [n] packets on a perfect clock whose first packet
    arrives at [start] ms: one 20 ms frame (960 ticks of the 48 kHz media
    clock) every 20 ms.  Every number of it is an integer below 2^53,
    which a double holds exactly. *)
Definition of_integer (z : Z) : float := PrimFloat.of_uint63 (Uint63.of_Z z).
Definition steady_packet (start i : Z) : AudioPacket.t :=
  AudioPacket.mk [x01] i (of_integer (960 * i)) (of_integer (start + 20 * i))
                 "alice" None.
Definition steady_timeline (start n : Z) : UserTimeline.t :=
  UserTimeline.mk "alice" 1 (of_integer start) 0 0
                  (steady_packet start <$> seqZ 0 n).

(** 100 packets of a perfect clock, the first arriving at the
    [Date.now()] of 14 November 2023. *)
Definition epoch_timeline : UserTimeline.t := steady_timeline 1700000000000 100.

(** A timeline of [n] packets, 20 ms apart from [start] ms on, that all
    carry the media timestamp [tick]: the timestamps have no variance. *)
Definition stalled_packet (tick start i : Z) : AudioPacket.t :=
  AudioPacket.mk [x01] i (of_integer tick) (of_integer (start + 20 * i))
                 "alice" None.
Definition stalled_timeline (tick start n : Z) : UserTimeline.t :=
  UserTimeline.mk "alice" 1 (of_integer start) 0 0
                  (stalled_packet tick start <$> seqZ 0 n).

(** [Math.pow(x, y)] for [y = 2], as the correctly rounded square. *)
Definition rounded_square (x y : float) : float := (x * x)%float.

(** Twelve zero bytes: RTP version 0. *)
Definition version0_packet : Buffer.t := replicate 12 x00.

(** A 22-byte packet without extension, with two CSRC entries and a
    payload of two bytes. *)
Definition csrc_packet : Buffer.t :=
  [x82; x78; x00; x01;  x00; x00; x00; x00;  x00; x00; x00; x01;
   x00; x00; x00; x0a;  x00; x00; x00; x0b;  xaa; xbb].

(** The fixed header of a packet whose extension flag is set, and nothing
    behind it: it parses, and its payload cannot be extracted. *)
Definition header_only_packet : Buffer.t := take 12 truncated_extension_packet.

Definition sample_readings : Readings := mkReadings 1000 1001 (7, 500000000) 1002.

(** A stand-in decoder: a 3840-byte frame for any data but the empty
    frame, on which it throws. *)
Definition frame_decode (d : unit) (frame : Buffer.t) : unit * result Buffer.t :=
  (d, match frame with
      | [] => Throw (JsError "empty frame")
      | _ => Ok (replicate 3840 x01)
      end).

(** A handler in the middle of a recording, with packets 4 and 7 still
    buffered. *)
Definition recording_handler : StreamHandler unit :=
  mkStreamHandler handler_4_7 true None true false.

(** Three tracks of three users; [alice_first] starts first. *)
Definition three_tracks : list TrackMetadata.t :=
  [alice_first; bob_track; carol_track].

(** Joining a path as on POSIX, and an FFmpeg that always succeeds. *)
Definition posix_join (dir file : string) : string := dir +:+ "/" +:+ file.
Definition ffmpeg_succeeds (args : list string) : result unit := Ok ().

(** What the analysis sees of [alice_first] at the [Date.now()] of 14
    November 2023: a file whose size stands for 100 ms more than the time
    between the start of the track on the high-resolution clock and that
    reading of the wall clock. *)
Definition alice_seen : Observed :=
  mkObserved (Ok 326400000000000) 1700000000000 1700000000500.

(** What it sees of a recording of 10 s at the same reading: the wall
    clock counts from 1970, the high-resolution clock of the track from
    an origin of its own, and the two are 53 years apart. *)
Definition alice_recorded : Observed :=
  mkObserved (Ok 1920000) 1700000000000 1700000000500.

(** A render that always succeeds. *)
Definition render_succeeds (args : list DriftCorrector.ffarg) : result unit :=
  Ok ().


(** * Properties *)

(** ** RTP header codec *)

Section Codec.

Lemma bind_Ok {A B} (a : A) (k : A -> result B) : (Ok a ≫= k) = k a.
Proof. reflexivity. Qed.

Lemma bind_Throw {A B} (e : exn) (k : A -> result B) :
  (Throw e ≫= k) = Throw e.
Proof. reflexivity. Qed.

Lemma readUInt16BE_in_range buffer offset :
  0 <= offset -> offset + 2 <= Buffer.len buffer ->
  exists v, Buffer.readUInt16BE buffer offset = Ok v.
Proof.
  intros Hlo Hhi. unfold Buffer.readUInt16BE.
  rewrite decide_True by lia. eauto.
Qed.

Lemma readUInt32BE_in_range buffer offset :
  0 <= offset -> offset + 4 <= Buffer.len buffer ->
  exists v, Buffer.readUInt32BE buffer offset = Ok v.
Proof.
  intros Hlo Hhi. unfold Buffer.readUInt32BE.
  rewrite decide_True by lia. eauto.
Qed.

Lemma parseRtpHeader_short buffer :
  Buffer.len buffer < 12 ->
  parseRtpHeader buffer = Throw (JsError "Buffer too small for RTP header").
Proof. intros Hlen. unfold parseRtpHeader. by rewrite decide_True. Qed.

Lemma parseRtpHeader_long buffer :
  12 <= Buffer.len buffer ->
  exists sequenceNumber timestamp ssrc,
    parseRtpHeader buffer =
      Ok (RtpHeader.mk
            (Z.land (Z.shiftr (Buffer.at_ buffer 0) 6) 3)
            (Z.land (Z.shiftr (Buffer.at_ buffer 0) 5) 1 =? 1)
            (Z.land (Z.shiftr (Buffer.at_ buffer 0) 4) 1 =? 1)
            (Z.land (Buffer.at_ buffer 0) 15)
            (Z.land (Z.shiftr (Buffer.at_ buffer 1) 7) 1 =? 1)
            (Z.land (Buffer.at_ buffer 1) 127)
            sequenceNumber timestamp ssrc).
Proof.
  intros Hlen. unfold parseRtpHeader. rewrite decide_False by lia.
  destruct (readUInt16BE_in_range buffer 2) as [sn ->]; [lia..|].
  destruct (readUInt32BE_in_range buffer 4) as [ts ->]; [lia..|].
  destruct (readUInt32BE_in_range buffer 8) as [ss ->]; [lia..|].
  by exists sn, ts, ss.
Qed.

Lemma csrcCount_range buffer header :
  parseRtpHeader buffer = Ok header -> 0 <= RtpHeader.csrcCount header <= 15.
Proof.
  intros Hparse. unfold parseRtpHeader in Hparse.
  case_decide; [done|].
  destruct (Buffer.readUInt16BE buffer 2); [|done].
  destruct (Buffer.readUInt32BE buffer 4); [|done].
  destruct (Buffer.readUInt32BE buffer 8); [|done].
  injection Hparse as <-. simpl.
  change (Z.land (Buffer.at_ buffer 0) 15)
    with (Z.land (Buffer.at_ buffer 0) (Z.ones 4)).
  rewrite Z.land_ones by lia. change (2 ^ 4) with 16.
  pose proof (Z.mod_pos_bound (Buffer.at_ buffer 0) 16). lia.
Qed.

End Codec.

(** C9. [parseRtpHeader] throws its error exactly on the buffers of fewer
    than 12 bytes and returns a header for every buffer of 12 bytes or
    more: the length check is its only failure, whatever the field values
    are (a packet of RTP version 0 parses). *)
Theorem parseRtpHeader_fails_only_when_short (buffer : Buffer.t) :
  ((length buffer < 12)%nat ->
     MalformedPacket (parseRtpHeader buffer) /\
     parseRtpHeader buffer = Throw (JsError "Buffer too small for RTP header"))
  /\ ((12 <= length buffer)%nat ->
       exists header, parseRtpHeader buffer = Ok header)
  /\ (exists header,
        parseRtpHeader version0_packet = Ok header /\
        RtpHeader.version header = 0).
Proof.
  split; [|split].
  - intros Hlen.
    assert (parseRtpHeader buffer
            = Throw (JsError "Buffer too small for RTP header")) as Hthrow
      by (apply parseRtpHeader_short; unfold Buffer.len; lia).
    split; [by eexists|done].
  - intros Hlen.
    destruct (parseRtpHeader_long buffer) as (sn & ts & ss & ->);
      [unfold Buffer.len; lia|by eexists].
  - eexists. split; [reflexivity|reflexivity].
Qed.

Lemma parseRtpHeader_fails_only_when_short_witness :
  parseRtpHeader [x80; x78; x00] = Throw (JsError "Buffer too small for RTP header")
  /\ exists header, parseRtpHeader truncated_extension_packet = Ok header.
Proof.
  split.
  - apply (parseRtpHeader_fails_only_when_short [x80; x78; x00]). simpl. lia.
  - apply (parseRtpHeader_fails_only_when_short truncated_extension_packet).
    simpl. lia.
Defined.

(** C5, as stated, fails.  In [truncated_extension_packet] the extension
    flag is set and the declared extension length puts the payload start at
    byte 20 of a 16-byte buffer; [extractOpusPayload] does not throw and
    returns the empty payload. *)
Lemma extractOpusPayload_truncated_extension :
  (exists header,
     parseRtpHeader truncated_extension_packet = Ok header /\
     RtpHeader.extension header = true /\
     RtpHeader.csrcCount header = 0) /\
  Buffer.readUInt16BE truncated_extension_packet (12 + 2) = Ok 1 /\
  Buffer.len truncated_extension_packet < 12 + (4 + 1 * 4) /\
  extractOpusPayload truncated_extension_packet = Ok [] /\
  ~ MalformedPacket (extractOpusPayload truncated_extension_packet).
Proof.
  split; [|split; [|split; [|split]]].
  - eexists. split; [reflexivity|]. split; reflexivity.
  - reflexivity.
  - reflexivity.
  - reflexivity.
  - intros [message Hthrow]. discriminate Hthrow.
Qed.

(** C5, amended.  For a buffer whose extension flag is set,
    [extractOpusPayload] throws when the buffer is too short to hold the
    4-byte extension header behind the CSRC list; when the header fits it
    does not throw and returns the bytes of the buffer from the declared
    payload start on (12 + 4 * csrcCount + 4 + 4 * the 16-bit word count
    read 2 bytes into the extension). *)
Theorem extractOpusPayload_extension (buffer : Buffer.t) (header : RtpHeader.t) :
  parseRtpHeader buffer = Ok header ->
  RtpHeader.extension header = true ->
  let extensionStart := 12 + RtpHeader.csrcCount header * 4 in
  (Buffer.len buffer < extensionStart + 4 ->
     MalformedPacket (extractOpusPayload buffer) /\
     extractOpusPayload buffer
     = Throw (JsError "Buffer too small for RTP extension header"))
  /\ (extensionStart + 4 <= Buffer.len buffer ->
       exists extensionLength,
         Buffer.readUInt16BE buffer (extensionStart + 2) = Ok extensionLength /\
         extractOpusPayload buffer
         = Ok (Buffer.slice buffer (extensionStart + (4 + extensionLength * 4)))).
Proof.
  intros Hparse Hext extensionStart.
  pose proof (csrcCount_range buffer header Hparse) as Hcc.
  assert ((if decide (RtpHeader.csrcCount header > 0)
           then 12 + RtpHeader.csrcCount header * 4 else 12) = extensionStart)
    as Hstart by (subst extensionStart; case_decide; lia).
  unfold extractOpusPayload. rewrite Hparse, bind_Ok, Hstart, Hext.
  split.
  - intros Hshort. rewrite decide_True by done.
    split; [by eexists|done].
  - intros Hfits. rewrite decide_False by lia.
    destruct (readUInt16BE_in_range buffer (extensionStart + 2))
      as [extensionLength Hread]; [subst extensionStart; lia|lia|].
    exists extensionLength. by rewrite Hread.
Qed.

Lemma extractOpusPayload_extension_witness :
  extractOpusPayload extension_packet = Ok [xaa; xbb].
Proof.
  edestruct (extractOpusPayload_extension extension_packet) as [_ Hfits];
    [reflexivity|reflexivity|].
  destruct Hfits as (extensionLength & Hread & ->); [vm_compute; discriminate|].
  vm_compute in Hread. injection Hread as <-. reflexivity.
Defined.

(** ** Jitter buffer *)

Section JitterBufferFacts.

Import JitterBuffer JitterBufferPacket.

(** *** [shouldFlush] *)

Lemma shouldFlush_empty jb currentTime :
  packetQueue jb = [] -> shouldFlush jb currentTime = false.
Proof. unfold shouldFlush. by intros ->. Qed.

Lemma shouldFlush_cons jb currentTime oldestPacket rest :
  packetQueue jb = oldestPacket :: rest ->
  shouldFlush jb currentTime = true <->
  TARGET_DELAY_MS <= currentTime - bufferedAt oldestPacket \/
  FRAME_DURATION_MS <= currentTime - lastFlushTime jb.
Proof.
  unfold shouldFlush. intros ->.
  rewrite orb_true_iff, !Z.leb_le. reflexivity.
Qed.

Lemma shouldFlush_nonempty jb currentTime :
  shouldFlush jb currentTime = true ->
  exists oldestPacket rest, packetQueue jb = oldestPacket :: rest.
Proof.
  unfold shouldFlush. destruct (packetQueue jb) as [|p rest]; [done|eauto].
Qed.

End JitterBufferFacts.

(** C6, as stated, fails on an empty queue: 1000 ms after the last flush
    the second condition of the claim holds, and [shouldFlush] of the new
    buffer is false. *)
Lemma shouldFlush_new_buffer :
  JitterBuffer.FRAME_DURATION_MS
    <= 1000 - JitterBuffer.lastFlushTime JitterBuffer.new
  /\ JitterBuffer.shouldFlush JitterBuffer.new 1000 = false.
Proof. split; [vm_compute; discriminate|reflexivity]. Qed.

(** C6, amended.  With an empty queue [shouldFlush(now)] is false; with a
    packet buffered it is true if the packet at the head of the queue (the
    code's [oldestPacket]) has been buffered for at least the 150 ms target
    delay, or if at least the 20 ms frame duration has passed since the
    last flush, and false otherwise. *)
Theorem shouldFlush_spec (jb : JitterBuffer.t) (now : Z) :
  match JitterBuffer.packetQueue jb with
  | [] => JitterBuffer.shouldFlush jb now = false
  | oldestPacket :: _ =>
      JitterBuffer.shouldFlush jb now =
        bool_decide (150 <= now - JitterBufferPacket.bufferedAt oldestPacket \/
                     20 <= now - JitterBuffer.lastFlushTime jb)
  end.
Proof.
  destruct (JitterBuffer.packetQueue jb) as [|oldestPacket rest] eqn:Hqueue.
  - by apply shouldFlush_empty.
  - apply eq_true_iff_eq.
    rewrite (shouldFlush_cons jb now oldestPacket rest Hqueue), bool_decide_eq_true.
    reflexivity.
Qed.

(** *** The loop of [flush] *)

Section FlushLoop.

Import JitterBuffer JitterBufferPacket.

Lemma first_with_sequence_cons s p queue :
  first_with_sequence s (p :: queue)
  = if decide (sequence p = s) then Some p else first_with_sequence s queue.
Proof.
  unfold first_with_sequence. simpl. case_decide; [done|].
  by destruct (list_find _ queue) as [[? ?]|].
Qed.

Lemma first_with_sequence_find s queue :
  match list_find (fun p => sequence p = s) queue with
  | Some (packetIndex, found) =>
      first_with_sequence s queue = Some found /\
      queue !! packetIndex = Some found /\ sequence found = s
  | None => first_with_sequence s queue = None
  end.
Proof.
  unfold first_with_sequence.
  destruct (list_find _ queue) as [[packetIndex found]|] eqn:Hfind; [|done].
  apply list_find_Some in Hfind as (Hlookup & Hseq & _). done.
Qed.

(** Removing a packet with another sequence number does not change which
    packet a sequence number selects. *)
Lemma first_with_sequence_delete s queue packetIndex removed :
  queue !! packetIndex = Some removed ->
  sequence removed <> s ->
  first_with_sequence s (delete packetIndex queue) = first_with_sequence s queue.
Proof.
  revert packetIndex.
  induction queue as [|p queue IH]; intros [|packetIndex] Hlookup Hseq;
    simplify_eq/=.
  - rewrite first_with_sequence_cons. by rewrite decide_False.
  - rewrite !first_with_sequence_cons. case_decide; [done|]. by eapply IH.
Qed.

Lemma flush_loop_O clock expected i reads queue :
  flush_loop clock expected 0 i reads queue = (queue, []).
Proof. by destruct queue. Qed.

Lemma flush_loop_nil clock expected slots i reads :
  flush_loop clock expected slots i reads [] = ([], []).
Proof. by destruct slots. Qed.

(** One iteration, seen from the packet it pushes. *)
Lemma flush_loop_S clock expected slots i reads queue :
  queue <> [] ->
  exists packet queue1 reads1,
    flush_loop clock expected (S slots) i reads queue
    = (let '(queue', flushed) :=
         flush_loop clock expected slots (i + 1) reads1 queue1 in
       (queue', packet :: flushed))
    /\ sequence packet = expected + i
    /\ match first_with_sequence (expected + i) queue with
       | Some buffered =>
           packet = buffered /\ reads1 = reads /\
           exists packetIndex,
             queue !! packetIndex = Some buffered /\
             queue1 = delete packetIndex queue
       | None =>
           packet = createSilencePacket (expected + i) (clock reads) /\
           reads1 = S reads /\ queue1 = queue
       end.
Proof.
  intros Hqueue. destruct queue as [|p queue]; [done|].
  cbn [flush_loop].
  pose proof (first_with_sequence_find (expected + i) (p :: queue)) as Hfind.
  destruct (list_find _ (p :: queue)) as [[packetIndex found]|].
  - destruct Hfind as (-> & Hlookup & Hseq).
    exists found, (delete packetIndex (p :: queue)), reads.
    split; [done|]. split; [done|]. split; [done|]. split; [done|]. eauto.
  - rewrite Hfind.
    exists (createSilencePacket (expected + i) (clock reads)), (p :: queue),
           (S reads).
    done.
Qed.

(** The packets pushed carry consecutive sequence numbers, starting at
    [expected + i]. *)
Lemma flush_loop_sequences clock expected slots i reads queue queue' flushed :
  flush_loop clock expected slots i reads queue = (queue', flushed) ->
  sequence <$> flushed = seqZ (expected + i) (Z.of_nat (length flushed)) /\
  (length flushed <= slots)%nat /\
  ((length flushed < slots)%nat -> queue' = []).
Proof.
  revert i reads queue queue' flushed.
  induction slots as [|slots IH]; intros i reads queue queue' flushed Hloop.
  - rewrite flush_loop_O in Hloop. simplify_eq/=. split; [done|]. split; lia.
  - destruct queue as [|p queue].
    { rewrite flush_loop_nil in Hloop. simplify_eq/=. split; [done|].
      split; [lia|done]. }
    destruct (flush_loop_S clock expected slots i reads (p :: queue))
      as (packet & queue1 & reads1 & Hstep & Hseq & _); [done|].
    rewrite Hstep in Hloop.
    destruct (flush_loop clock expected slots (i + 1) reads1 queue1)
      as [queue2 flushed2] eqn:Hrest.
    simplify_eq/=.
    destruct (IH _ _ _ _ _ Hrest) as (Hseqs & Hlen & Hempty).
    split; [|split; [lia|intros; apply Hempty; lia]].
    rewrite Hseqs, Hseq.
    rewrite (seqZ_cons (expected + i)) by lia.
    f_equal. f_equal; lia.
Qed.

(** Every packet pushed is the buffered packet of its slot, or the silence
    placeholder of its slot if none is buffered. *)
Lemma flush_loop_slots clock expected slots i reads queue queue' flushed :
  flush_loop clock expected slots i reads queue = (queue', flushed) ->
  forall (slot : nat) packet,
    flushed !! slot = Some packet ->
    match first_with_sequence (expected + i + Z.of_nat slot) queue with
    | Some buffered => packet = buffered
    | None =>
        exists now, packet = createSilencePacket (expected + i + Z.of_nat slot) now
    end.
Proof.
  revert i reads queue queue' flushed.
  induction slots as [|slots IH]; intros i reads queue queue' flushed Hloop.
  - rewrite flush_loop_O in Hloop. by simplify_eq/=.
  - destruct queue as [|p queue].
    { rewrite flush_loop_nil in Hloop. by simplify_eq/=. }
    destruct (flush_loop_S clock expected slots i reads (p :: queue))
      as (packet0 & queue1 & reads1 & Hstep & Hseq0 & Hfirst); [done|].
    rewrite Hstep in Hloop.
    destruct (flush_loop clock expected slots (i + 1) reads1 queue1)
      as [queue2 flushed2] eqn:Hrest.
    simplify_eq/=.
    intros [|slot] packet Hlookup; simplify_eq/=.
    + rewrite Z.add_0_r.
      destruct (first_with_sequence (expected + i) (p :: queue));
        [by destruct Hfirst|destruct Hfirst as [-> _]; eauto].
    + specialize (IH _ _ _ _ _ Hrest slot packet Hlookup).
      replace (expected + i + Z.of_nat (S slot)) with (expected + (i + 1) + Z.of_nat slot) by lia.
      destruct (first_with_sequence (expected + i) (p :: queue))
        as [buffered|] eqn:Hbuffered.
      * destruct Hfirst as (-> & -> & packetIndex & Hindex & ->).
        rewrite (first_with_sequence_delete _ _ _ buffered) in IH;
          [done|done|lia].
      * by destruct Hfirst as (_ & _ & ->).
Qed.

(** The buffered packets pushed are exactly the ones removed. *)
Lemma flush_loop_removed clock expected slots i reads queue queue' flushed :
  flush_loop clock expected slots i reads queue = (queue', flushed) ->
  queue ≡ₚ
    omap (fun s => first_with_sequence s queue)
         (seqZ (expected + i) (Z.of_nat (length flushed)))
    ++ queue'.
Proof.
  revert i reads queue queue' flushed.
  induction slots as [|slots IH]; intros i reads queue queue' flushed Hloop.
  - rewrite flush_loop_O in Hloop. by simplify_eq/=.
  - destruct queue as [|p queue].
    { rewrite flush_loop_nil in Hloop. by simplify_eq/=. }
    destruct (flush_loop_S clock expected slots i reads (p :: queue))
      as (packet0 & queue1 & reads1 & Hstep & Hseq0 & Hfirst); [done|].
    rewrite Hstep in Hloop.
    destruct (flush_loop clock expected slots (i + 1) reads1 queue1)
      as [queue2 flushed2] eqn:Hrest.
    simplify_eq.
    specialize (IH _ _ _ _ _ Hrest).
    rewrite (seqZ_cons (expected + i)) by (cbn [length]; lia).
    replace (Z.succ (expected + i)) with (expected + (i + 1)) by lia.
    replace (Z.pred (Z.of_nat (length (packet0 :: flushed2))))
      with (Z.of_nat (length flushed2)) by (cbn [length]; lia).
    cbn [omap list_omap].
    assert (omap (fun s => first_with_sequence s (p :: queue))
                 (seqZ (expected + (i + 1)) (Z.of_nat (length flushed2)))
            = omap (fun s => first_with_sequence s queue1)
                   (seqZ (expected + (i + 1)) (Z.of_nat (length flushed2))))
      as ->.
    { apply list_omap_ext, Forall_Forall2_diag, Forall_seqZ. intros s Hs.
      destruct (first_with_sequence (expected + i) (p :: queue))
        as [buffered|] eqn:Hbuffered.
      - destruct Hfirst as (-> & -> & packetIndex & Hindex & ->).
        symmetry. apply (first_with_sequence_delete _ _ _ buffered);
          [done|lia].
      - by destruct Hfirst as (_ & _ & ->). }
    destruct (first_with_sequence (expected + i) (p :: queue))
      as [buffered|] eqn:Hbuffered.
    + destruct Hfirst as (-> & -> & packetIndex & Hindex & ->).
      cbn [app]. rewrite <- IH. by apply delete_Permutation.
    + destruct Hfirst as (_ & _ & ->). done.
Qed.

(** A slot is processed only on a queue that is not empty: before it,
    fewer buffered packets have been pushed than the queue held. *)
Lemma flush_loop_nonempty clock expected slots i reads queue queue' flushed :
  flush_loop clock expected slots i reads queue = (queue', flushed) ->
  forall slot : nat,
    (slot < length flushed)%nat ->
    (length (omap (fun s => first_with_sequence s queue)
                  (seqZ (expected + i) (Z.of_nat slot)))
     < length queue)%nat.
Proof.
  revert i reads queue queue' flushed.
  induction slots as [|slots IH]; intros i reads queue queue' flushed Hloop.
  - rewrite flush_loop_O in Hloop. simplify_eq/=. lia.
  - destruct queue as [|p queue].
    { rewrite flush_loop_nil in Hloop. simplify_eq/=. lia. }
    destruct (flush_loop_S clock expected slots i reads (p :: queue))
      as (packet0 & queue1 & reads1 & Hstep & Hseq0 & Hfirst); [done|].
    rewrite Hstep in Hloop.
    destruct (flush_loop clock expected slots (i + 1) reads1 queue1)
      as [queue2 flushed2] eqn:Hrest.
    simplify_eq.
    intros [|slot] Hslot; [rewrite seqZ_nil by lia; cbn; lia|].
    cbn [length] in Hslot.
    specialize (IH _ _ _ _ _ Hrest slot ltac:(lia)).
    rewrite (seqZ_cons (expected + i)) by lia.
    replace (Z.succ (expected + i)) with (expected + (i + 1)) by lia.
    replace (Z.pred (Z.of_nat (S slot))) with (Z.of_nat slot) by lia.
    cbn [omap list_omap].
    assert (omap (fun s => first_with_sequence s (p :: queue))
                 (seqZ (expected + (i + 1)) (Z.of_nat slot))
            = omap (fun s => first_with_sequence s queue1)
                   (seqZ (expected + (i + 1)) (Z.of_nat slot)))
      as ->.
    { apply list_omap_ext, Forall_Forall2_diag, Forall_seqZ. intros s Hs.
      destruct (first_with_sequence (expected + i) (p :: queue))
        as [buffered|] eqn:Hbuffered.
      - destruct Hfirst as (-> & -> & packetIndex & Hindex & ->).
        symmetry. apply (first_with_sequence_delete _ _ _ buffered);
          [done|lia].
      - by destruct Hfirst as (_ & _ & ->). }
    destruct (first_with_sequence (expected + i) (p :: queue))
      as [buffered|] eqn:Hbuffered.
    + destruct Hfirst as (-> & -> & packetIndex & Hindex & ->).
      pose proof (length_delete (p :: queue) packetIndex
                    (mk_is_Some _ _ Hindex)) as Hdeleted.
      cbn [length] in *. lia.
    + destruct Hfirst as (_ & _ & ->). cbn [length] in *. lia.
Qed.

End FlushLoop.

(** *** [flush] *)

Section Flush.

Import JitterBuffer JitterBufferPacket.

Lemma flush_idle jb clock :
  shouldFlush jb (clock 0%nat) = false -> flush jb clock = (jb, []).
Proof. unfold flush. by intros ->. Qed.

Lemma flush_active jb clock :
  shouldFlush jb (clock 0%nat) = true ->
  exists queue flushed,
    flush_loop clock (expectedSequence jb)
               (Z.to_nat (expectedPackets jb (clock 2%nat))) 0 3
               (packetQueue jb) = (queue, flushed) /\
    flush jb clock
    = (JitterBuffer.mk queue (clock 1%nat)
          (expectedSequence jb + expectedPackets jb (clock 2%nat))
          (isInitialized jb),
       flushed).
Proof.
  unfold flush. intros ->. cbn [negb].
  destruct (flush_loop _ _ _ _ _ _) as [queue flushed]. eauto.
Qed.

Lemma expectedPackets_pos jb currentTime : 1 <= expectedPackets jb currentTime.
Proof. unfold expectedPackets. lia. Qed.

End Flush.

(** C1, as stated, fails.  [lone_packet_buffer] holds packet 4 alone, 100 ms
    old: five frame-slots have elapsed, but the loop of [flush] stops when
    the queue is empty, after the first slot.  One frame is emitted, not
    five, and [expectedSequence] still advances by five. *)
Lemma flush_lone_packet :
  let clock : Clock := fun _ => 100 in
  JitterBuffer.shouldFlush lone_packet_buffer (clock 0%nat) = true /\
  Z.max 1 ((clock 2%nat - JitterBufferPacket.bufferedAt lone_packet) / 20) = 5 /\
  (JitterBuffer.flush lone_packet_buffer clock).2 = [lone_packet] /\
  JitterBuffer.expectedSequence (JitterBuffer.flush lone_packet_buffer clock).1
  = JitterBuffer.expectedSequence lone_packet_buffer + 5.
Proof. repeat split. Qed.

(** C1, amended.  In a state in which [shouldFlush] holds, [flush] takes
    the number of elapsed frame-slots to be max(1, floor(time since the
    head packet was buffered / 20 ms)) and advances [expectedSequence] by
    that number.  It goes through the slots in order, and only for as long
    as the queue is not empty: a slot is processed only if fewer buffered
    packets have been emitted before it than the queue held, and the loop
    stops before all slots are done only with the queue empty.  Slot k
    emits the first buffered packet whose sequence number is
    [expectedSequence + k] and removes it, or, if none is buffered, emits
    the silence placeholder: the Opus frame f8 ff fe with sequence number
    [expectedSequence + k] and timestamp 0.  In particular, with packets 4
    and 7 buffered, 4 expected and at least four slots (80 ms) elapsed, it
    emits packet 4, silence placeholders tagged 5 and 6, and packet 7, in
    this order. *)
Theorem flush_spec :
  (forall (jb : JitterBuffer.t) (clock : Clock),
     JitterBuffer.shouldFlush jb (clock 0%nat) = true ->
     exists oldestPacket rest slots jb' flushed,
       JitterBuffer.packetQueue jb = oldestPacket :: rest /\
       slots = Z.max 1 ((clock 2%nat - JitterBufferPacket.bufferedAt oldestPacket) / 20) /\
       JitterBuffer.flush jb clock = (jb', flushed) /\
       JitterBuffer.expectedSequence jb' = JitterBuffer.expectedSequence jb + slots /\
       Z.of_nat (length flushed) <= slots /\
       (Z.of_nat (length flushed) < slots -> JitterBuffer.packetQueue jb' = []) /\
       (forall slot : nat,
          (slot < length flushed)%nat ->
          (length
             (omap (fun s => JitterBuffer.first_with_sequence
                               s (JitterBuffer.packetQueue jb))
                   (seqZ (JitterBuffer.expectedSequence jb) (Z.of_nat slot)))
           < length (JitterBuffer.packetQueue jb))%nat) /\
       (forall (slot : nat) packet,
          flushed !! slot = Some packet ->
          JitterBufferPacket.sequence packet
          = JitterBuffer.expectedSequence jb + Z.of_nat slot /\
          match JitterBuffer.first_with_sequence
                  (JitterBuffer.expectedSequence jb + Z.of_nat slot)
                  (JitterBuffer.packetQueue jb) with
          | Some buffered => packet = buffered
          | None =>
              exists now,
                packet = JitterBufferPacket.mk
                           [xf8; xff; xfe]
                           (JitterBuffer.expectedSequence jb + Z.of_nat slot)
                           0 now
          end) /\
       JitterBuffer.packetQueue jb ≡ₚ
         omap (fun s => JitterBuffer.first_with_sequence s (JitterBuffer.packetQueue jb))
              (seqZ (JitterBuffer.expectedSequence jb) (Z.of_nat (length flushed)))
         ++ JitterBuffer.packetQueue jb')
  /\ (forall (packet4 packet7 : JitterBufferPacket.t) (lastFlush : Z)
             (clock : Clock),
        JitterBufferPacket.sequence packet4 = 4 ->
        JitterBufferPacket.sequence packet7 = 7 ->
        let jb := JitterBuffer.mk [packet4; packet7] lastFlush 4 true in
        JitterBuffer.shouldFlush jb (clock 0%nat) = true ->
        80 <= clock 2%nat - JitterBufferPacket.bufferedAt packet4 ->
        (JitterBuffer.flush jb clock).2
        = [packet4;
           JitterBufferPacket.mk [xf8; xff; xfe] 5 0 (clock 3%nat);
           JitterBufferPacket.mk [xf8; xff; xfe] 6 0 (clock 4%nat);
           packet7]).
Proof.
  split.
  - intros jb clock Hshould.
    destruct (shouldFlush_nonempty _ _ Hshould) as (oldestPacket & rest & Hqueue).
    destruct (flush_active _ _ Hshould) as (queue & flushed & Hloop & Hflush).
    pose proof (expectedPackets_pos jb (clock 2%nat)) as Hpos.
    assert (JitterBuffer.expectedPackets jb (clock 2%nat)
            = Z.max 1 ((clock 2%nat - JitterBufferPacket.bufferedAt oldestPacket) / 20))
      as Hslots by (unfold JitterBuffer.expectedPackets; by rewrite Hqueue).
    destruct (flush_loop_sequences _ _ _ _ _ _ _ _ Hloop) as (Hseqs & Hlen & Hempty).
    pose proof (flush_loop_slots _ _ _ _ _ _ _ _ Hloop) as Hslot.
    pose proof (flush_loop_removed _ _ _ _ _ _ _ _ Hloop) as Hremoved.
    pose proof (flush_loop_nonempty _ _ _ _ _ _ _ _ Hloop) as Hnonempty.
    rewrite Z.add_0_r in Hseqs, Hremoved, Hnonempty.
    eexists oldestPacket, rest, _, _, flushed.
    split; [done|]. split; [reflexivity|]. split; [exact Hflush|].
    rewrite <- Hslots. cbn [JitterBuffer.expectedSequence JitterBuffer.packetQueue].
    split; [done|]. split; [lia|]. split; [intros; apply Hempty; lia|].
    split; [exact Hnonempty|].
    split; [|done].
    intros slot packet Hlookup. split.
    + assert ((JitterBufferPacket.sequence <$> flushed) !! slot
              = Some (JitterBufferPacket.sequence packet)) as Hs
        by (by rewrite list_lookup_fmap, Hlookup).
      rewrite Hseqs in Hs. by apply lookup_seqZ in Hs as [-> _].
    + specialize (Hslot slot packet Hlookup). by rewrite Z.add_0_r in Hslot.
  - intros [data4 ? ts4 at4] [data7 ? ts7 at7] lastFlush clock Hfour Hseven jb
           Hshould Hage.
    cbn in Hfour, Hseven, Hage. subst.
    unfold JitterBuffer.flush. rewrite Hshould. cbn [negb]. subst jb.
    unfold JitterBuffer.expectedPackets.
    cbn [JitterBuffer.packetQueue JitterBufferPacket.bufferedAt
         JitterBuffer.expectedSequence].
    assert (4 <= (clock 2%nat - at4) / JitterBuffer.FRAME_DURATION_MS) as Hfour
      by (apply Z.div_le_lower_bound; unfold JitterBuffer.FRAME_DURATION_MS; lia).
    destruct (Z.to_nat (Z.max 1 ((clock 2%nat - at4) / JitterBuffer.FRAME_DURATION_MS)))
      as [|[|[|[|slots]]]] eqn:Hslots; [lia..|].
    vm_compute. by destruct slots.
Qed.

(** On [lone_packet_buffer] the clauses of the first part leave one
    output only, the lone packet: the second slot would be processed on an
    empty queue. *)
Lemma flush_spec_witness :
  (exists jb',
     JitterBuffer.flush lone_packet_buffer (fun _ => 100)
     = (jb', [lone_packet]) /\
     JitterBuffer.expectedSequence jb' = 9 /\
     JitterBuffer.packetQueue jb' = [])
  /\ (JitterBuffer.flush
        (JitterBuffer.mk [JitterBufferPacket.mk [x01] 4 960 0;
                          JitterBufferPacket.mk [x02] 7 3840 60] 0 4 true)
        (fun _ => 80)).2
     = [JitterBufferPacket.mk [x01] 4 960 0;
        JitterBufferPacket.mk [xf8; xff; xfe] 5 0 80;
        JitterBufferPacket.mk [xf8; xff; xfe] 6 0 80;
        JitterBufferPacket.mk [x02] 7 3840 60].
Proof.
  split.
  - destruct (proj1 flush_spec lone_packet_buffer (fun _ => 100))
      as (oldestPacket & rest & slots & jb' & flushed & Hqueue & Hslots
          & Hflush & Hexpected & Hlen & Hempty & Hnonempty & Hslot
          & Hremoved);
      [reflexivity|].
    injection Hqueue as <- <-.
    vm_compute in Hslots. subst slots.
    assert (length flushed = 1%nat) as Hone.
    { destruct flushed as [|first [|second flushed]]; [|done|].
      - rewrite Hempty in Hremoved by (cbn; lia).
        apply Permutation_length in Hremoved. vm_compute in Hremoved. lia.
      - specialize (Hnonempty 1%nat ltac:(cbn; lia)).
        vm_compute in Hnonempty. lia. }
    destruct flushed as [|first [|second flushed]]; [done| |done].
    destruct (Hslot 0%nat first eq_refl) as [_ Hfirst].
    vm_compute in Hfirst. subst first.
    exists jb'. split; [exact Hflush|].
    split; [exact Hexpected|].
    apply Hempty. cbn. lia.
  - apply (proj2 flush_spec); [reflexivity|reflexivity|reflexivity|].
    vm_compute. discriminate.
Defined.

(** *** Order of the queue and of the emitted frames *)

Section Ordering.

Import JitterBuffer JitterBufferPacket.

Lemma by_sequence_cons p queue :
  by_sequence (p :: queue) <->
  Forall (fun q => sequence p <= sequence q) queue /\ by_sequence queue.
Proof. apply StronglySorted_cons. Qed.

Lemma by_sequence_sublist queue' queue :
  queue' `sublist_of` queue -> by_sequence queue -> by_sequence queue'.
Proof.
  induction 1 as [|p l1 l2 Hsub IH|p l1 l2 Hsub IH]; [done|..].
  - rewrite !by_sequence_cons, !Forall_forall. intros [Hhead Htail].
    split; [|by apply IH].
    intros q Hq. apply Hhead. by eapply elem_of_sublist.
  - rewrite by_sequence_cons. intros [_ Htail]. by apply IH.
Qed.

(** The head of a queue in order carries its least sequence number. *)
Lemma by_sequence_head queue p :
  by_sequence queue -> p ∈ queue ->
  exists oldestPacket rest,
    queue = oldestPacket :: rest /\ sequence oldestPacket <= sequence p.
Proof.
  destruct queue as [|oldestPacket rest]; [by intros _ ?%elem_of_nil|].
  rewrite by_sequence_cons, Forall_forall.
  intros [Hhead _] [->|Hin]%elem_of_cons; exists oldestPacket, rest.
  - split; [done|lia].
  - auto.
Qed.

Lemma sort_insert_Permutation p sorted : sort_insert p sorted ≡ₚ p :: sorted.
Proof.
  induction sorted as [|q sorted IH]; [done|]. simpl.
  case_decide; [done|]. rewrite IH. apply Permutation_swap.
Qed.

Lemma sort_insert_by_sequence p sorted :
  by_sequence sorted -> by_sequence (sort_insert p sorted).
Proof.
  induction sorted as [|q sorted IH]; intros Hsorted; simpl.
  - apply by_sequence_cons. split; [done|constructor].
  - apply by_sequence_cons in Hsorted as [Hhead Htail].
    case_decide.
    + apply by_sequence_cons. split; [|by apply by_sequence_cons].
      constructor; [lia|]. eapply Forall_impl; [exact Hhead|]. simpl; lia.
    + apply by_sequence_cons. split; [|by apply IH].
      rewrite sort_insert_Permutation. constructor; [lia|done].
Qed.

Lemma sort_from_spec queue sorted :
  foldl (fun sorted p => sort_insert p sorted) sorted queue ≡ₚ sorted ++ queue
  /\ (by_sequence sorted ->
      by_sequence (foldl (fun sorted p => sort_insert p sorted) sorted queue)).
Proof.
  revert sorted. induction queue as [|p queue IH]; intros sorted; simpl.
  - by rewrite app_nil_r.
  - destruct (IH (sort_insert p sorted)) as [Hperm Hsorted]. split.
    + rewrite Hperm, sort_insert_Permutation.
      by rewrite <- Permutation_middle.
    + intros ?. by apply Hsorted, sort_insert_by_sequence.
Qed.

Lemma sort_Permutation queue : sort queue ≡ₚ queue.
Proof. apply (sort_from_spec queue []). Qed.

Lemma sort_by_sequence queue : by_sequence (sort queue).
Proof. apply (sort_from_spec queue []). constructor. Qed.

Lemma seqZ_increasing m n : StronglySorted Z.lt (seqZ m n).
Proof.
  unfold seqZ. generalize (Z.to_nat n) as len. generalize 0%nat as start.
  intros start len. revert start.
  induction len as [|len IH]; intros start; simpl; [constructor|].
  apply StronglySorted_cons. split; [|apply IH].
  apply Forall_fmap, Forall_seq. intros j Hj. simpl. lia.
Qed.

(** What [bufferPacket] does to the state. *)
Lemma bufferPacket_spec jb packet now :
  let buffered := JitterBufferPacket.mk (data packet) (sequence packet)
                                        (timestamp packet) now in
  let jb' := bufferPacket jb packet now in
  packetQueue jb' ≡ₚ packetQueue jb ++ [buffered] /\
  by_sequence (packetQueue jb') /\
  isInitialized jb' = true /\
  lastFlushTime jb' = lastFlushTime jb /\
  expectedSequence jb'
  = (if isInitialized jb then expectedSequence jb else sequence packet).
Proof.
  unfold bufferPacket.
  destruct (isInitialized jb) eqn:Hinit; cbn;
    (split; [apply sort_Permutation|split; [apply sort_by_sequence|done]]).
Qed.

Lemma flush_loop_sublist clock expected slots i reads queue queue' flushed :
  flush_loop clock expected slots i reads queue = (queue', flushed) ->
  queue' `sublist_of` queue.
Proof.
  revert i reads queue queue' flushed.
  induction slots as [|slots IH]; intros i reads queue queue' flushed Hloop.
  - rewrite flush_loop_O in Hloop. by simplify_eq.
  - destruct queue as [|p queue].
    { rewrite flush_loop_nil in Hloop. by simplify_eq. }
    destruct (flush_loop_S clock expected slots i reads (p :: queue))
      as (packet0 & queue1 & reads1 & Hstep & _ & Hfirst); [done|].
    rewrite Hstep in Hloop.
    destruct (flush_loop clock expected slots (i + 1) reads1 queue1)
      as [queue2 flushed2] eqn:Hrest.
    simplify_eq. specialize (IH _ _ _ _ _ Hrest).
    destruct (first_with_sequence (expected + i) (p :: queue)).
    + destruct Hfirst as (_ & _ & packetIndex & _ & ->).
      etrans; [exact IH|apply sublist_delete].
    + by destruct Hfirst as (_ & _ & ->).
Qed.

Lemma first_with_sequence_Some s queue p :
  first_with_sequence s queue = Some p -> sequence p = s.
Proof.
  intros Hfirst.
  pose proof (first_with_sequence_find s queue) as Hfind.
  destruct (list_find _ queue) as [[packetIndex found]|].
  - destruct Hfind as (Heq & _ & Hseq). congruence.
  - congruence.
Qed.

(** The frames of one [flush]: strictly increasing sequence numbers
    between the old and the new [expectedSequence]; the packets with
    earlier sequence numbers all stay. *)
Lemma flush_spec_order jb clock jb' flushed :
  flush jb clock = (jb', flushed) ->
  StronglySorted Z.lt (sequence <$> flushed) /\
  Forall (fun p => expectedSequence jb <= sequence p < expectedSequence jb')
         flushed /\
  expectedSequence jb <= expectedSequence jb' /\
  isInitialized jb' = isInitialized jb /\
  packetQueue jb' `sublist_of` packetQueue jb /\
  (flushed <> [] -> packetQueue jb <> []) /\
  (forall p, p ∈ packetQueue jb -> sequence p < expectedSequence jb ->
             p ∈ packetQueue jb').
Proof.
  intros Hflush.
  destruct (shouldFlush jb (clock 0%nat)) eqn:Hshould.
  - destruct (flush_active _ _ Hshould) as (queue & flushed0 & Hloop & Heq).
    rewrite Heq in Hflush. simplify_eq.
    cbn [expectedSequence isInitialized packetQueue].
    pose proof (expectedPackets_pos jb (clock 2%nat)) as Hpos.
    destruct (flush_loop_sequences _ _ _ _ _ _ _ _ Hloop) as (Hseqs & Hlen & _).
    pose proof (flush_loop_removed _ _ _ _ _ _ _ _ Hloop) as Hremoved.
    rewrite Z.add_0_r in Hseqs, Hremoved.
    split; [rewrite Hseqs; apply seqZ_increasing|].
    split.
    { apply Forall_fmap with (f := sequence)
                             (P := fun s => expectedSequence jb <= s
                                            < expectedSequence jb
                                              + expectedPackets jb (clock 2%nat)).
      rewrite Hseqs. apply Forall_seqZ. lia. }
    split; [lia|]. split; [done|].
    split; [by eapply flush_loop_sublist|].
    split.
    { intros _. destruct (shouldFlush_nonempty _ _ Hshould) as (? & ? & ->).
      done. }
    intros p Hin Hstale. rewrite Hremoved in Hin.
    apply elem_of_app in Hin as [Hemitted|Hkept]; [|done].
    apply list_elem_of_omap in Hemitted as (s & Hs & Hfirst).
    apply elem_of_seqZ in Hs.
    apply first_with_sequence_Some in Hfirst. lia.
  - rewrite (flush_idle _ _ Hshould) in Hflush. simplify_eq.
    split; [constructor|]. split; [constructor|]. split; [lia|].
    split; [done|]. split; [done|]. split; [done|]. done.
Qed.

End Ordering.

(** *** A buffer in use *)

Section Run.

Import JitterBuffer JitterBufferPacket.

Lemma no_clear_cons c calls :
  no_clear (c :: calls) = true -> c <> Clear /\ no_clear calls = true.
Proof.
  unfold no_clear. simpl. intros [Hc ?]%andb_true_iff.
  split; [|done]. by intros ->.
Qed.

Lemma run_order calls jb jb' emitted :
  no_clear calls = true ->
  seeded jb ->
  run jb calls = (jb', emitted) ->
  StronglySorted Z.lt (sequence <$> emitted) /\
  (isInitialized jb = true ->
   Forall (fun p => expectedSequence jb <= sequence p) emitted).
Proof.
  revert jb jb' emitted.
  induction calls as [|c calls IH]; intros jb jb' emitted Hcalls Hseeded Hrun.
  - simplify_eq/=. split; constructor.
  - apply no_clear_cons in Hcalls as [Hc Hcalls].
    destruct c as [packet now|clock|]; [| |done]; cbn [run] in Hrun.
    + destruct (bufferPacket_spec jb packet now)
        as (_ & _ & Hinit & _ & Hexpected).
      assert (seeded (bufferPacket jb packet now)) as Hseeded1
        by (intros Hfalse; congruence).
      destruct (IH _ _ _ Hcalls Hseeded1 Hrun) as [Hsorted Hbound].
      split; [done|]. intros Hjb. rewrite Hjb in Hexpected.
      rewrite <- Hexpected. auto.
    + destruct (flush jb clock) as [jb1 flushed] eqn:Hflush.
      destruct (run jb1 calls) as [jb2 later] eqn:Hlater.
      simplify_eq.
      destruct (flush_spec_order _ _ _ _ Hflush)
        as (Hsorted & Hrange & Hle & Hinit & Hsub & Hnonempty & _).
      assert (seeded jb1) as Hseeded1.
      { intros Hjb1. rewrite Hinit in Hjb1.
        specialize (Hseeded Hjb1). rewrite Hseeded in Hsub.
        by apply sublist_nil_r in Hsub. }
      destruct (IH _ _ _ Hcalls Hseeded1 Hlater) as [Hsorted' Hbound'].
      rewrite Hinit in Hbound'.
      split.
      * rewrite fmap_app. apply StronglySorted_app. split; [|done].
        intros s1 s2 (p1 & -> & Hp1)%list_elem_of_fmap
                     (p2 & -> & Hp2)%list_elem_of_fmap.
        assert (isInitialized jb = true) as Hjb.
        { destruct (isInitialized jb) eqn:Hjb; [done|].
          destruct Hnonempty; [|by apply Hseeded].
          intros ->. by apply elem_of_nil in Hp1. }
        rewrite Forall_forall in Hrange. specialize (Hrange _ Hp1).
        specialize (Hbound' Hjb). rewrite Forall_forall in Hbound'.
        specialize (Hbound' _ Hp2). lia.
      * intros Hjb. apply Forall_app. split.
        -- eapply Forall_impl; [exact Hrange|]. simpl. lia.
        -- eapply Forall_impl; [exact (Hbound' Hjb)|]. simpl. lia.
Qed.

(** A packet below [expectedSequence] outlives every [bufferPacket] and
    [flush]. *)
Lemma run_keeps calls jb jb' emitted p :
  no_clear calls = true ->
  isInitialized jb = true ->
  by_sequence (packetQueue jb) ->
  p ∈ packetQueue jb ->
  sequence p < expectedSequence jb ->
  run jb calls = (jb', emitted) ->
  p ∈ packetQueue jb' /\
  by_sequence (packetQueue jb') /\
  sequence p < expectedSequence jb' /\
  Forall (fun q => sequence p < sequence q) emitted.
Proof.
  revert jb jb' emitted.
  induction calls as [|c calls IH];
    intros jb jb' emitted Hcalls Hinit Hsorted Hin Hstale Hrun.
  - simplify_eq/=. split; [done|]. split; [done|]. split; [done|constructor].
  - apply no_clear_cons in Hcalls as [Hc Hcalls].
    destruct c as [packet now|clock|]; [| |done]; cbn [run] in Hrun.
    + destruct (bufferPacket_spec jb packet now)
        as (Hperm & Hsorted1 & Hinit1 & _ & Hexpected).
      rewrite Hinit in Hexpected.
      apply (IH _ _ _ Hcalls Hinit1 Hsorted1); [|lia|done].
      rewrite Hperm. apply elem_of_app. by left.
    + destruct (flush jb clock) as [jb1 flushed] eqn:Hflush.
      destruct (run jb1 calls) as [jb2 later] eqn:Hlater.
      simplify_eq.
      destruct (flush_spec_order _ _ _ _ Hflush)
        as (_ & Hrange & Hle & Hinit1 & Hsub & _ & Hkept).
      rewrite Hinit in Hinit1.
      destruct (IH _ _ _ Hcalls Hinit1 (by_sequence_sublist _ _ Hsub Hsorted)
                   (Hkept _ Hin Hstale) ltac:(lia) Hlater)
        as (Hin2 & Hsorted2 & Hstale2 & Hlater2).
      split; [done|]. split; [done|]. split; [done|].
      apply Forall_app. split; [|done].
      eapply Forall_impl; [exact Hrange|]. simpl. lia.
Qed.

End Run.

Section RunFacts.

Import JitterBuffer JitterBufferPacket.

Lemma run_seeded calls jb : seeded jb -> seeded (run jb calls).1.
Proof.
  revert jb. induction calls as [|c calls IH]; intros jb Hseeded; [done|].
  destruct c as [packet now|clock|]; cbn [run].
  - apply IH. intros Hfalse.
    destruct (bufferPacket_spec jb packet now) as (_ & _ & Hinit & _).
    congruence.
  - destruct (flush jb clock) as [jb1 flushed] eqn:Hflush.
    specialize (IH jb1). destruct (run jb1 calls) as [jb2 later].
    apply IH.
    destruct (flush_spec_order _ _ _ _ Hflush)
      as (_ & _ & _ & Hinit & Hsub & _).
    intros Hjb1. rewrite Hinit in Hjb1. rewrite (Hseeded Hjb1) in Hsub.
    by apply sublist_nil_r in Hsub.
  - by apply IH.
Qed.

(** A cleared buffer is a new buffer. *)
Lemma clear_new jb : clear jb = new.
Proof. reflexivity. Qed.

Lemma increasing_NoDup (l : list Z) : StronglySorted Z.lt l -> NoDup l.
Proof.
  induction 1 as [|s l Hsorted IH Hhead]; constructor; [|done].
  rewrite Forall_forall in Hhead. intros Hin. specialize (Hhead _ Hin). lia.
Qed.

End RunFacts.

(** C2.  The frames one jitter buffer emits over all its [flush] calls
    since it was created or last cleared, real or silence, in the order
    emitted, carry strictly increasing sequence numbers, so no sequence
    number is emitted twice, whatever packets were buffered in between and
    in whatever order. *)
Theorem emitted_strictly_increasing
    (history calls : list JitterBuffer.call) :
  JitterBuffer.no_clear calls = true ->
  let jb := JitterBuffer.clear (JitterBuffer.run JitterBuffer.new history).1 in
  let emitted := (JitterBuffer.run jb calls).2 in
  StronglySorted Z.lt (JitterBufferPacket.sequence <$> emitted) /\
  NoDup (JitterBufferPacket.sequence <$> emitted).
Proof.
  intros Hcalls jb emitted.
  assert (StronglySorted Z.lt (JitterBufferPacket.sequence <$> emitted))
    as Hsorted.
  { subst emitted.
    destruct (JitterBuffer.run jb calls) as [jb' out] eqn:Hrun.
    by apply (run_order calls jb jb' out Hcalls). }
  split; [done|by apply increasing_NoDup].
Qed.

Lemma emitted_strictly_increasing_witness :
  JitterBufferPacket.sequence
    <$> (JitterBuffer.run JitterBuffer.new
           [JitterBuffer.BufferPacket (packet_numbered 7) 0;
            JitterBuffer.BufferPacket (packet_numbered 5) 5;
            JitterBuffer.BufferPacket (packet_numbered 7) 10;
            JitterBuffer.Flush (fun _ => 40);
            JitterBuffer.BufferPacket (packet_numbered 8) 50;
            JitterBuffer.Flush (fun _ => 60)]).2
  = [7; 8; 9]
  /\ NoDup [7; 8; 9].
Proof.
  split; [reflexivity|].
  apply (emitted_strictly_increasing
           []
           [JitterBuffer.BufferPacket (packet_numbered 7) 0;
            JitterBuffer.BufferPacket (packet_numbered 5) 5;
            JitterBuffer.BufferPacket (packet_numbered 7) 10;
            JitterBuffer.Flush (fun _ => 40);
            JitterBuffer.BufferPacket (packet_numbered 8) 50;
            JitterBuffer.Flush (fun _ => 60)]).
  reflexivity.
Defined.

(** C10, as stated, fails in its aside: a late packet need not be the
    oldest packet of the queue.  After packet 10 was flushed, packets 5
    and 3 arrive late, in this order; packet 5 stays in the queue, behind
    packet 3. *)
Lemma late_packet_behind_another :
  JitterBuffer.expectedSequence buffer_past_10 = 11 /\
  JitterBuffer.isInitialized buffer_past_10 = true /\
  JitterBufferPacket.sequence late_5
    < JitterBuffer.expectedSequence buffer_past_10 /\
  let jb' :=
    (JitterBuffer.run
       (JitterBuffer.bufferPacket buffer_past_10 late_5 30)
       [JitterBuffer.BufferPacket late_3 35]).1 in
  JitterBuffer.packetQueue jb' = [late_3; late_5] /\
  head (JitterBuffer.packetQueue jb') <> Some late_5.
Proof. repeat split. discriminate. Qed.

(** C10, amended.  Once the first packet has seeded [expectedSequence], a
    packet buffered with a sequence number below [expectedSequence] is
    emitted by no later [flush] (every frame emitted later has a larger
    sequence number) and is removed by none: whatever [bufferPacket] and
    [flush] calls follow, it is still in the queue, the queue is in
    sequence order, and the packet at its head (the code's [oldestPacket])
    is this packet or one with a sequence number no larger, so itself
    below [expectedSequence].  The queue is therefore never empty and
    [shouldFlush] holds at every time 20 ms or more after the last flush.
    [clear()] empties the queue. *)
Theorem late_packet_stays
    (jb : JitterBuffer.t) (packet : JitterBufferPacket.t) (now : Z)
    (calls : list JitterBuffer.call) :
  JitterBuffer.isInitialized jb = true ->
  JitterBufferPacket.sequence packet < JitterBuffer.expectedSequence jb ->
  JitterBuffer.no_clear calls = true ->
  let late :=
    JitterBufferPacket.mk (JitterBufferPacket.data packet)
                          (JitterBufferPacket.sequence packet)
                          (JitterBufferPacket.timestamp packet) now in
  exists jb' emitted,
    JitterBuffer.run (JitterBuffer.bufferPacket jb packet now) calls
    = (jb', emitted) /\
    (late ∈ JitterBuffer.packetQueue jb') /\
    (late ∉ emitted) /\
    Forall (fun q => JitterBufferPacket.sequence late
                     < JitterBufferPacket.sequence q) emitted /\
    JitterBuffer.by_sequence (JitterBuffer.packetQueue jb') /\
    (exists oldestPacket rest,
       JitterBuffer.packetQueue jb' = oldestPacket :: rest /\
       JitterBufferPacket.sequence oldestPacket
         <= JitterBufferPacket.sequence late /\
       JitterBufferPacket.sequence oldestPacket
         < JitterBuffer.expectedSequence jb') /\
    (forall t, JitterBuffer.lastFlushTime jb' + 20 <= t ->
               JitterBuffer.shouldFlush jb' t = true) /\
    JitterBuffer.packetQueue (JitterBuffer.clear jb') = [].
Proof.
  intros Hinit Hstale Hcalls late.
  destruct (JitterBuffer.run (JitterBuffer.bufferPacket jb packet now) calls)
    as [jb' emitted] eqn:Hrun.
  exists jb', emitted. split; [done|].
  destruct (bufferPacket_spec jb packet now)
    as (Hperm & Hsorted & Hinit1 & _ & Hexpected).
  rewrite Hinit in Hexpected.
  destruct (run_keeps calls _ jb' emitted late Hcalls Hinit1 Hsorted)
    as (Hin & Hsorted' & Hstale' & Hemitted); [| |done|].
  { rewrite Hperm. apply elem_of_app. right. by apply list_elem_of_singleton. }
  { rewrite Hexpected. exact Hstale. }
  destruct (by_sequence_head _ _ Hsorted' Hin)
    as (oldestPacket & rest & Hqueue & Hle).
  split; [done|]. split.
  { intros Hlate. rewrite Forall_forall in Hemitted.
    specialize (Hemitted _ Hlate). lia. }
  split; [done|]. split; [done|]. split.
  { exists oldestPacket, rest. split; [done|]. split; [done|]. lia. }
  split; [|done].
  intros t Ht. apply (shouldFlush_cons jb' t oldestPacket rest Hqueue).
  right. unfold JitterBuffer.FRAME_DURATION_MS. lia.
Qed.

Lemma late_packet_stays_witness :
  late_5 ∈ JitterBuffer.packetQueue
             (JitterBuffer.run
                (JitterBuffer.bufferPacket buffer_past_10 late_5 30)
                [JitterBuffer.BufferPacket late_3 35;
                 JitterBuffer.Flush (fun _ => 200);
                 JitterBuffer.BufferPacket (packet_numbered 12) 210;
                 JitterBuffer.Flush (fun _ => 220)]).1.
Proof.
  destruct (late_packet_stays
              buffer_past_10 late_5 30
              [JitterBuffer.BufferPacket late_3 35;
               JitterBuffer.Flush (fun _ => 200);
               JitterBuffer.BufferPacket (packet_numbered 12) 210;
               JitterBuffer.Flush (fun _ => 220)])
    as (jb' & emitted & Hrun & Hin & _); [reflexivity..|].
  rewrite Hrun. exact Hin.
Defined.

(** ** Flush cycle of the stream handler *)

Section FlushCycle.

Variable OpusScript : Type.
Variable decode : OpusScript -> Buffer.t -> OpusScript * result Buffer.t.

Lemma concealed_length d packets blocks d' :
  concealed OpusScript decode d packets blocks d' ->
  length blocks = length packets.
Proof. induction 1; simpl; congruence. Qed.

(** Every block stands for the frame at its place: it is what the decoder
    returned for it, or 3840 zero bytes where the decoder threw. *)
Lemma concealed_lookup d packets blocks d' :
  concealed OpusScript decode d packets blocks d' ->
  forall (i : nat) block,
    blocks !! i = Some block ->
    exists packet before after,
      packets !! i = Some packet /\
      (decode before (JitterBufferPacket.data packet) = (after, Ok block) \/
       (exists e,
          decode before (JitterBufferPacket.data packet) = (after, Throw e)) /\
       block = replicate 3840 x00).
Proof.
  induction 1 as [|d d1 d2 packet pcm packets blocks Hdecode _ IH
                  |d d1 d2 packet e packets blocks Hdecode _ IH];
    intros i block Hlookup.
  - by rewrite lookup_nil in Hlookup.
  - destruct i as [|i].
    + apply (inj Some) in Hlookup as <-.
      exists packet, d, d1. split; [reflexivity|by left].
    + destruct (IH i block Hlookup) as (frame & before & after & Hframe & Hblock).
      by exists frame, before, after.
  - destruct i as [|i].
    + apply (inj Some) in Hlookup as <-.
      exists packet, d, d1. split; [reflexivity|]. right. eauto.
    + destruct (IH i block Hlookup) as (frame & before & after & Hframe & Hblock).
      by exists frame, before, after.
Qed.

(** One packet: one block written, and never a throw. *)
Lemma processPacket_spec (h : UserStreamHandler OpusScript) packet :
  exists block,
    processPacket OpusScript decode h packet
    = Ok (mkUserStreamHandler
            (userId h) (pcmStream h ++ [block]) (jitterBuffer h)
            (decode (opusDecoder h) (JitterBufferPacket.data packet)).1
            (isActive h)) /\
    match (decode (opusDecoder h) (JitterBufferPacket.data packet)).2 with
    | Ok pcmData => block = pcmData
    | Throw _ => block = replicate 3840 x00
    end.
Proof.
  unfold processPacket, silenceBuffer.
  destruct (decode (opusDecoder h) (JitterBufferPacket.data packet))
    as [decoder [pcmData|e]];
    cbn [try_catch mbind result_bind pcmStream_write fst snd userId pcmStream
         jitterBuffer opusDecoder isActive];
    eexists; (split; reflexivity).
Qed.

Lemma processPackets_spec packets (h : UserStreamHandler OpusScript) :
  exists h' blocks,
    processPackets OpusScript decode h packets = Ok h' /\
    pcmStream h' = pcmStream h ++ blocks /\
    concealed OpusScript decode (opusDecoder h) packets blocks (opusDecoder h') /\
    jitterBuffer h' = jitterBuffer h /\
    isActive h' = isActive h.
Proof.
  revert h. induction packets as [|packet packets IH]; intros h.
  - exists h, []. cbn. rewrite app_nil_r. repeat split. constructor.
  - destruct (processPacket_spec h packet) as (block & Hstep & Hblock).
    cbn [processPackets]. rewrite Hstep, bind_Ok.
    destruct (IH (mkUserStreamHandler
                    (userId h) (pcmStream h ++ [block]) (jitterBuffer h)
                    (decode (opusDecoder h) (JitterBufferPacket.data packet)).1
                    (isActive h)))
      as (h' & blocks & Hrest & Hstream & Hconcealed & Hjb & Hactive).
    cbn [pcmStream opusDecoder jitterBuffer isActive]
      in Hstream, Hconcealed, Hjb, Hactive.
    exists h', (block :: blocks). split; [exact Hrest|].
    split; [by rewrite Hstream, <- app_assoc|].
    split; [|split; [exact Hjb|exact Hactive]].
    destruct (decode (opusDecoder h) (JitterBufferPacket.data packet))
      as [decoder [pcmData|e]] eqn:Hdecode;
      cbn [fst snd] in Hblock, Hconcealed; subst block.
    + eapply concealed_decoded; [exact Hdecode|exact Hconcealed].
    + eapply concealed_failed; [exact Hdecode|exact Hconcealed].
Qed.

(** C8.  A tick of an active handler never throws.  For the frames its
    [flush] emits it appends to the PCM stream exactly one block per frame,
    in order: the decoded PCM of the frame, or, in place of every frame
    the decoder throws on, a block of 3840 zero bytes (20 ms of silence at
    48 kHz, 16 bit, stereo). *)
Theorem processJitterBuffer_conceals
    (h : UserStreamHandler OpusScript) (clock : Clock) :
  isActive h = true ->
  exists h' blocks,
    processJitterBuffer OpusScript decode h clock = Ok h' /\
    pcmStream h' = pcmStream h ++ blocks /\
    length blocks = length (JitterBuffer.flush (jitterBuffer h) clock).2 /\
    concealed OpusScript decode (opusDecoder h)
              (JitterBuffer.flush (jitterBuffer h) clock).2 blocks
              (opusDecoder h') /\
    (forall (i : nat) block,
       blocks !! i = Some block ->
       exists frame before after,
         (JitterBuffer.flush (jitterBuffer h) clock).2 !! i = Some frame /\
         (decode before (JitterBufferPacket.data frame) = (after, Ok block) \/
          (exists e,
             decode before (JitterBufferPacket.data frame) = (after, Throw e)) /\
          block = replicate 3840 x00)) /\
    jitterBuffer h' = (JitterBuffer.flush (jitterBuffer h) clock).1.
Proof.
  intros Hactive. unfold processJitterBuffer. rewrite Hactive. cbn [negb].
  destruct (JitterBuffer.flush (jitterBuffer h) clock) as [jb packets].
  destruct (processPackets_spec packets
              (mkUserStreamHandler (userId h) (pcmStream h) jb
                                   (opusDecoder h) true))
    as (h' & blocks & Hrun & Hstream & Hconcealed & Hjb & _).
  cbn [pcmStream opusDecoder jitterBuffer fst snd]
    in Hstream, Hconcealed, Hjb |- *.
  exists h', blocks.
  split; [exact Hrun|]. split; [exact Hstream|].
  split; [by eapply concealed_length|].
  split; [exact Hconcealed|].
  split; [by eapply concealed_lookup|exact Hjb].
Qed.

End FlushCycle.

Lemma processJitterBuffer_conceals_witness :
  exists h',
    processJitterBuffer unit picky_decode handler_4_7 (fun _ => 80) = Ok h' /\
    pcmStream h'
    = [[x00; x00; x00; x00]; replicate 3840 x00; replicate 3840 x00;
       [x00; x00; x00; x00]].
Proof.
  destruct (processJitterBuffer_conceals unit picky_decode handler_4_7
                                         (fun _ => 80))
    as (h' & blocks & Hrun & Hstream & _); [reflexivity|].
  exists h'. split; [exact Hrun|].
  vm_compute in Hrun. injection Hrun as <-. reflexivity.
Defined.

(** ** Timeline of the mix *)

Section Timeline.

Import AudioMixer.

Lemma Math_min_elem first others : Math_min first others ∈ first :: others.
Proof.
  unfold Math_min. revert first.
  induction others as [|x others IH]; intros first; simpl; [set_solver|].
  specialize (IH (Qmin first x)).
  apply elem_of_cons in IH as [->|IH]; [|set_solver].
  unfold Qmin, GenericMinMax.gmin. destruct (first ?= x)%Q; set_solver.
Qed.

Lemma Math_min_below first others : (Math_min first others <= first)%Q.
Proof.
  unfold Math_min. revert first.
  induction others as [|y others IH]; intros first; simpl; [apply Qle_refl|].
  eapply Qle_trans; [apply IH|apply Q.le_min_l].
Qed.

Lemma Math_min_le first others x :
  x ∈ first :: others -> (Math_min first others <= x)%Q.
Proof.
  revert first.
  induction others as [|y others IH]; intros first Hin.
  - apply list_elem_of_singleton in Hin as ->. apply Qle_refl.
  - change (Math_min first (y :: others)) with (Math_min (Qmin first y) others).
    apply elem_of_cons in Hin as [->|Hin].
    + eapply Qle_trans; [apply Math_min_below|apply Q.le_min_l].
    + apply elem_of_cons in Hin as [->|Hin].
      * eapply Qle_trans; [apply Math_min_below|apply Q.le_min_r].
      * apply IH. set_solver.
Qed.

Lemma Math_round_0 (x : Q) : (x == 0)%Q -> Math_round x = 0.
Proof.
  intros Hx. unfold Math_round.
  assert (x + (1 # 2) == 1 # 2)%Q as -> by (rewrite Hx; ring).
  reflexivity.
Qed.

Lemma setTrackDelays_other g tracks delays user :
  user ∉ (TrackMetadata.userId <$> tracks) ->
  foldl (setTrackDelay g) delays tracks !! user = delays !! user.
Proof.
  revert delays. induction tracks as [|t tracks IH]; intros delays Hnotin;
    [done|].
  rewrite fmap_cons, not_elem_of_cons in Hnotin. destruct Hnotin as [Hne Hnotin].
  simpl. rewrite IH by done. unfold setTrackDelay.
  by rewrite lookup_insert_ne.
Qed.

Lemma setTrackDelays_recorded g tracks delays user delay :
  foldl (setTrackDelay g) delays tracks !! user = Some delay ->
  delays !! user = Some delay \/
  exists t, t ∈ tracks /\ TrackMetadata.userId t = user /\
            delay = Z.max 0 (Math_round (trackStartTime t - g)).
Proof.
  revert delays. induction tracks as [|t tracks IH]; intros delays Hlookup;
    [by left|].
  simpl in Hlookup. apply IH in Hlookup as [Hlookup|(t' & Hin & Huser & Hd)].
  - unfold setTrackDelay in Hlookup.
    apply lookup_insert_Some in Hlookup as [[<- <-]|[_ Hlookup]].
    + right. exists t. split; [set_solver|done].
    + by left.
  - right. exists t'. split; [set_solver|done].
Qed.

End Timeline.

(** C3, as stated, fails when two tracks carry one user id: the delays are
    recorded under the user id, and the later track overwrites the
    earlier.  [alice_first] starts earliest (at 100 ms, the global start
    time), yet the delay recorded for it is 150, the delay of
    [alice_second]. *)
Lemma calculateTrackDelays_same_user :
  let tracks := [alice_first; alice_second] in
  let globalStartTime := AudioMixer.calculateGlobalStartTime tracks in
  (globalStartTime == 100)%Q /\
  (AudioMixer.trackStartTime alice_first == globalStartTime)%Q /\
  Z.max 0 (Math_round (AudioMixer.trackStartTime alice_first
                       - globalStartTime)) = 0 /\
  AudioMixer.calculateTrackDelays tracks globalStartTime
    !! TrackMetadata.userId alice_first = Some 150.
Proof. repeat split. Qed.

(** C3, amended.  For every list of tracks, [globalStartTime] is the
    minimum over the tracks of [startTimeHR] in milliseconds, and 0 for an
    empty list.  The delay computed for a track is
    round(start of the track in ms - globalStartTime) floored at 0, and it
    is recorded under the track's user id.  Every delay recorded is
    non-negative and is the delay of a track of that user.  The delay
    recorded under a track's user id is the delay of that very track
    whenever no later track of the list carries the same user id -- for
    every track when the user ids are pairwise distinct -- and it is then
    exactly 0 for a track that starts at [globalStartTime]. *)
Theorem calculateTrackDelays_spec (tracks : list TrackMetadata.t) :
  let globalStartTime := AudioMixer.calculateGlobalStartTime tracks in
  let delays := AudioMixer.calculateTrackDelays tracks globalStartTime in
  let delay_of track :=
    Z.max 0 (Math_round (AudioMixer.trackStartTime track - globalStartTime)) in
  (tracks = [] -> globalStartTime = 0%Q) /\
  (tracks <> [] ->
   exists earliest,
     earliest ∈ tracks /\
     globalStartTime = AudioMixer.trackStartTime earliest) /\
  (forall track,
     track ∈ tracks ->
     (globalStartTime <= AudioMixer.trackStartTime track)%Q) /\
  (forall recorded track,
     AudioMixer.setTrackDelay globalStartTime recorded track
       !! TrackMetadata.userId track = Some (delay_of track)) /\
  (forall user delay,
     delays !! user = Some delay ->
     0 <= delay /\
     exists track,
       track ∈ tracks /\ TrackMetadata.userId track = user /\
       delay = delay_of track) /\
  (forall before track after,
     tracks = before ++ track :: after ->
     TrackMetadata.userId track ∉ (TrackMetadata.userId <$> after) ->
     delays !! TrackMetadata.userId track = Some (delay_of track) /\
     ((AudioMixer.trackStartTime track == globalStartTime)%Q ->
      delays !! TrackMetadata.userId track = Some 0)) /\
  (NoDup (TrackMetadata.userId <$> tracks) ->
   forall track,
     track ∈ tracks ->
     delays !! TrackMetadata.userId track = Some (delay_of track)).
Proof.
  intros globalStartTime delays delay_of.
  assert (forall before track after,
            tracks = before ++ track :: after ->
            TrackMetadata.userId track ∉ (TrackMetadata.userId <$> after) ->
            delays !! TrackMetadata.userId track = Some (delay_of track))
    as Hlast.
  { intros before track after Htracks Hafter. subst delays.
    unfold AudioMixer.calculateTrackDelays.
    rewrite Htracks at 1. rewrite foldl_app. cbn [foldl].
    rewrite setTrackDelays_other by done.
    unfold AudioMixer.setTrackDelay at 1. by rewrite lookup_insert_eq. }
  split; [by intros ->|]. split; [|split; [|split; [|split; [|split]]]].
  - intros Hnonempty. subst globalStartTime.
    unfold AudioMixer.calculateGlobalStartTime.
    destruct tracks as [|first others]; [done|]. cbn [map].
    pose proof (Math_min_elem (AudioMixer.trackStartTime first)
                  (map AudioMixer.trackStartTime others)) as Hin.
    change (AudioMixer.trackStartTime first
            :: map AudioMixer.trackStartTime others)
      with (AudioMixer.trackStartTime <$> first :: others) in Hin.
    apply list_elem_of_fmap in Hin as (earliest & Hmin & Hin). eauto.
  - intros track Hin. subst globalStartTime.
    unfold AudioMixer.calculateGlobalStartTime.
    destruct tracks as [|first others]; [by apply elem_of_nil in Hin|].
    cbn [map]. apply Math_min_le.
    change (AudioMixer.trackStartTime first
            :: map AudioMixer.trackStartTime others)
      with (AudioMixer.trackStartTime <$> first :: others).
    by apply list_elem_of_fmap_2.
  - intros recorded track. unfold AudioMixer.setTrackDelay.
    by rewrite lookup_insert_eq.
  - intros user delay Hlookup.
    apply setTrackDelays_recorded in Hlookup
      as [Hempty|(track & Hin & Huser & ->)]; [by rewrite lookup_empty in Hempty|].
    split; [lia|eauto].
  - intros before track after Htracks Hafter.
    split; [by eapply Hlast|].
    intros Hearliest. rewrite (Hlast before track after) by done.
    subst delay_of. cbn beta. rewrite Math_round_0; [done|].
    rewrite Hearliest. ring.
  - intros Hnodup track Hin.
    apply list_elem_of_split in Hin as (before & after & Htracks).
    apply (Hlast before track after Htracks).
    rewrite Htracks, fmap_app, fmap_cons in Hnodup.
    apply NoDup_app in Hnodup as (_ & _ & Hnodup).
    by apply NoDup_cons in Hnodup as [? _].
Qed.

Lemma calculateTrackDelays_spec_witness :
  let tracks := [alice_first; bob_track; carol_track] in
  let delays :=
    AudioMixer.calculateTrackDelays
      tracks (AudioMixer.calculateGlobalStartTime tracks) in
  delays !! "alice" = Some 0 /\ delays !! "bob" = Some 150 /\
  delays !! "carol" = Some 300.
Proof.
  intros tracks delays.
  destruct (calculateTrackDelays_spec tracks)
    as (_ & _ & _ & _ & _ & _ & Hdistinct).
  assert (NoDup (TrackMetadata.userId <$> tracks)) as Hnodup
    by (refine (bool_decide_unpack _ _); vm_compute; exact I).
  split; [|split].
  - apply (Hdistinct Hnodup alice_first). set_solver.
  - apply (Hdistinct Hnodup bob_track). set_solver.
  - apply (Hdistinct Hnodup carol_track). set_solver.
Defined.

(** ** Drift correction *)

Section Correction.

Import DriftCorrector.

Lemma clampedFactor_clamp (x : Q) :
  (Qmax (95 # 100) (Qmin (105 # 100) x) == clamp (95 # 100) (105 # 100) x)%Q.
Proof.
  unfold clamp.
  destruct (Qlt_le_dec x (95 # 100)) as [Hlow|Hlow].
  - rewrite Q.max_l; [reflexivity|].
    eapply Qle_trans; [apply Q.le_min_r|by apply Qlt_le_weak].
  - destruct (Qlt_le_dec (105 # 100) x) as [Hhigh|Hhigh].
    + rewrite Q.min_l by (by apply Qlt_le_weak). by rewrite Q.max_r.
    + rewrite Q.min_r by done. by rewrite Q.max_r.
Qed.

Lemma clamp_range (x : Q) :
  (95 # 100 <= clamp (95 # 100) (105 # 100) x <= 105 # 100)%Q.
Proof.
  unfold clamp.
  destruct (Qlt_le_dec x (95 # 100)); [done|].
  destruct (Qlt_le_dec (105 # 100) x); [done|]. done.
Qed.



End Correction.




(** ** Drift detection *)

Section Sums.

Import OLS.

Lemma sum_cons x l : sum (x :: l) = (x + sum l)%Q.
Proof. reflexivity. Qed.

(** The two identities behind the computational form of the slope. *)
Lemma sum_deviation_products (a b : Q) (xs ys : list Q) :
  length xs = length ys ->
  (sum (zip_with (fun x y => (x - a) * (y - b)) xs ys)
   == sum (zip_with Qmult xs ys) - a * sum ys - b * sum xs
      + count xs * a * b)%Q.
Proof.
  unfold count. revert ys.
  induction xs as [|x xs IH]; intros [|y ys] Hlen; simplify_eq.
  - cbn. ring.
  - cbn [zip_with length]. rewrite !sum_cons, IH by (by simplify_eq/=).
    rewrite Nat2Z.inj_succ, <- Z.add_1_r, inject_Z_plus. ring.
Qed.

Lemma sum_squared_deviations (a : Q) (xs : list Q) :
  (sum ((fun x => (x - a) ^ 2) <$> xs)
   == sum ((fun x => x * x) <$> xs) - (2 # 1) * a * sum xs
      + count xs * a * a)%Q.
Proof.
  unfold count.
  induction xs as [|x xs IH].
  - cbn. ring.
  - cbn [length]. rewrite !fmap_cons, !sum_cons, IH.
    rewrite Nat2Z.inj_succ, <- Z.add_1_r, inject_Z_plus. ring.
Qed.

End Sums.

Section LeastSquares.

Lemma Num_div_Some a b :
  Num.div (Some a) (Some b) = if Qeq_bool b 0 then None else Some (a / b)%Q.
Proof. reflexivity. Qed.

Lemma Qeq_bool_false a : ~ (a == 0)%Q -> Qeq_bool a 0 = false.
Proof.
  intros Ha. destruct (Qeq_bool a 0) eqn:Hb; [|done].
  by apply Qeq_bool_eq in Hb.
Qed.

Lemma count_nonzero (l : list Q) : (0 < length l)%nat -> ~ (OLS.count l == 0)%Q.
Proof.
  unfold OLS.count. intros Hlen Hzero.
  change 0%Q with (inject_Z 0) in Hzero.
  apply (proj1 (inject_Z_injective _ _)) in Hzero. lia.
Qed.

(** The numerator and the denominator of the code's slope are the
    specification's, both scaled by the number of points. *)
Lemma slope_numerator xs ys :
  length xs = length ys -> (0 < length xs)%nat ->
  (OLS.count xs * OLS.sum (zip_with Qmult xs ys) - OLS.sum xs * OLS.sum ys
   == OLS.count xs * OLS.Sxy xs ys)%Q.
Proof.
  intros Hlen Hpos. unfold OLS.Sxy.
  rewrite sum_deviation_products by done.
  unfold OLS.mean. assert (OLS.count ys = OLS.count xs) as ->
    by (unfold OLS.count; by rewrite Hlen).
  field. by apply count_nonzero.
Qed.

Lemma slope_denominator xs :
  (0 < length xs)%nat ->
  (OLS.count xs * OLS.sum ((fun x => x * x) <$> xs) - OLS.sum xs * OLS.sum xs
   == OLS.count xs * OLS.Sxx xs)%Q.
Proof.
  intros Hpos. unfold OLS.Sxx.
  rewrite sum_squared_deviations. unfold OLS.mean.
  field. by apply count_nonzero.
Qed.

Lemma sum_squares_nonneg (a : Q) xs :
  (0 <= OLS.sum ((fun x => (x - a) ^ 2) <$> xs))%Q.
Proof.
  induction xs as [|x xs IH]; [done|].
  rewrite fmap_cons, sum_cons.
  rewrite <- (Qplus_0_l 0).
  apply Qplus_le_compat; [apply Qsqr_nonneg|done].
Qed.

Lemma sum_squares_zero (a : Q) xs :
  (OLS.sum ((fun x => (x - a) ^ 2) <$> xs) == 0)%Q ->
  Forall (fun x => x == a)%Q xs.
Proof.
  induction xs as [|x xs IH]; [constructor|].
  rewrite fmap_cons, sum_cons. intros Hzero.
  pose proof (sum_squares_nonneg a xs) as Htail.
  pose proof (Qsqr_nonneg (x - a)) as Hhead.
  assert ((x - a) ^ 2 == 0)%Q as Hx.
  { apply Qle_antisym; [|done]. rewrite <- Hzero.
    rewrite <- (Qplus_0_r ((x - a) ^ 2)) at 1.
    by apply Qplus_le_r. }
  constructor.
  - assert ((x - a) * (x - a) == 0)%Q as Hsq by (rewrite <- Hx; ring).
    apply Qmult_integral in Hsq.
    assert (x - a == 0)%Q as Hd by (by destruct Hsq).
    rewrite <- (Qplus_0_r a), <- Hd. ring.
  - apply IH. rewrite Hx, Qplus_0_l in Hzero. done.
Qed.

(** The quotient [calculateLinearRegression] forms for the slope is, over
    the rationals, the slope of the specification. *)
Lemma one_pass_slope xs ys :
  length xs = length ys -> (0 < length xs)%nat ->
  ~ (OLS.Sxx xs == 0)%Q ->
  ((OLS.count xs * OLS.sum (zip_with Qmult xs ys) - OLS.sum xs * OLS.sum ys)
   / (OLS.count xs * OLS.sum ((fun x => x * x) <$> xs)
      - OLS.sum xs * OLS.sum xs)
   == OLS.Sxy xs ys / OLS.Sxx xs)%Q.
Proof.
  intros Hlen Hpos HSxx.
  rewrite slope_numerator, slope_denominator by done.
  field. split; [done|by apply count_nonzero].
Qed.

End LeastSquares.

(** *** Points on a line *)

Section LineFit.

Variables a b : Q.

Lemma count_cons (x : Q) l : (OLS.count (x :: l) == 1 + OLS.count l)%Q.
Proof.
  unfold OLS.count. cbn [length].
  rewrite Nat2Z.inj_succ, <- Z.add_1_l, inject_Z_plus. reflexivity.
Qed.

Lemma sum_on_line xs ys :
  Forall2 (on_line a b) xs ys ->
  (OLS.sum ys == OLS.count xs * a + b * OLS.sum xs)%Q.
Proof.
  induction 1 as [|x y xs ys Hxy _ IH].
  - unfold OLS.count. cbn. ring.
  - unfold on_line in Hxy. rewrite !sum_cons, count_cons, IH, Hxy. ring.
Qed.

Lemma sum_zip_on_line (h : Q -> Q -> Q) (g : Q -> Q) xs ys :
  Forall2 (on_line a b) xs ys ->
  (forall x y, on_line a b x y -> h x y == g x)%Q ->
  (OLS.sum (zip_with h xs ys) == OLS.sum (g <$> xs))%Q.
Proof.
  intros Hline Hh. induction Hline as [|x y xs ys Hxy _ IH]; [reflexivity|].
  cbn [zip_with fmap list_fmap]. rewrite !sum_cons, IH, (Hh x y Hxy).
  reflexivity.
Qed.

Lemma sum_scale (c : Q) (g : Q -> Q) xs :
  (OLS.sum ((fun x => c * g x) <$> xs) == c * OLS.sum (g <$> xs))%Q.
Proof.
  induction xs as [|x xs IH]; [cbn; ring|].
  cbn [fmap list_fmap]. rewrite !sum_cons.
  change (list_fmap Q Q ?f xs) with (f <$> xs). rewrite IH. ring.
Qed.

Lemma Sxx_nonzero xs x x' :
  x ∈ xs -> x' ∈ xs -> ~ (x == x')%Q -> ~ (OLS.Sxx xs == 0)%Q.
Proof.
  intros Hx Hx' Hdiff Hzero. apply sum_squares_zero in Hzero.
  rewrite Forall_forall in Hzero. apply Hdiff.
  by rewrite (Hzero x Hx), (Hzero x' Hx').
Qed.

Lemma two_values_length (xs : list Q) x x' :
  x ∈ xs -> x' ∈ xs -> ~ (x == x')%Q -> (2 <= length xs)%nat.
Proof.
  intros Hx Hx' Hdiff. destruct xs as [|x1 [|x2 xs]]; cbn; [|exfalso|lia].
  - by apply elem_of_nil in Hx.
  - apply list_elem_of_singleton in Hx, Hx'. subst. by apply Hdiff.
Qed.

(** The specification's fit of points on the line [y = a + b x] is that
    line, with an R² of 1. *)
Lemma OLS_on_line xs ys x x' :
  Forall2 (on_line a b) xs ys ->
  x ∈ xs -> x' ∈ xs -> ~ (x == x')%Q ->
  Num.eq (OLS.slope xs ys) (Some b) /\
  Num.eq (OLS.intercept xs ys) (Some a) /\
  Num.eq (OLS.r_squared xs ys) (Some 1%Q).
Proof.
  intros Hline Hx Hx' Hdiff.
  pose proof (Forall2_length _ _ _ Hline) as Hlen.
  pose proof (two_values_length xs x x' Hx Hx' Hdiff) as Hn.
  pose proof (Sxx_nonzero xs x x' Hx Hx' Hdiff) as HSxx.
  pose proof (count_nonzero xs ltac:(lia)) as Hcount.
  assert (OLS.mean ys == a + b * OLS.mean xs)%Q as Hmean.
  { unfold OLS.mean.
    assert (OLS.count ys = OLS.count xs) as ->
      by (unfold OLS.count; by rewrite Hlen).
    rewrite (sum_on_line xs ys Hline). by field. }
  assert (OLS.Sxy xs ys == b * OLS.Sxx xs)%Q as HSxy.
  { unfold OLS.Sxy, OLS.Sxx.
    rewrite <- (sum_scale b (fun x => (x - OLS.mean xs) ^ 2)%Q).
    apply sum_zip_on_line; [done|].
    intros x0 y0 Hy. unfold on_line in Hy. rewrite Hmean, Hy. ring. }
  assert (OLS.Sxy xs ys / OLS.Sxx xs == b)%Q as Hb
    by (rewrite HSxy; by field).
  assert (OLS.mean ys - OLS.Sxy xs ys / OLS.Sxx xs * OLS.mean xs == a)%Q
    as Ha by (rewrite Hb, Hmean; ring).
  unfold OLS.r_squared, OLS.intercept, OLS.slope, Num.of_Q.
  rewrite Num_div_Some, (Qeq_bool_false _ HSxx).
  cbn [mbind option_bind].
  split; [by apply Some_Forall2|]. split; [by apply Some_Forall2|].
  destruct (Qeq_bool (OLS.ssTot ys) 0); apply Some_Forall2; [done|].
  assert (OLS.ssRes xs ys (OLS.Sxy xs ys / OLS.Sxx xs)
                    (OLS.mean ys - OLS.Sxy xs ys / OLS.Sxx xs * OLS.mean xs)
          == 0)%Q as ->.
  { unfold OLS.ssRes.
    rewrite (sum_zip_on_line _ (fun x => 0 * (x - x))%Q xs ys Hline).
    - rewrite (sum_scale 0 (fun x => x - x)%Q). ring.
    - intros x0 y0 Hy. unfold on_line in Hy. rewrite Ha, Hb, Hy. ring. }
  unfold Qdiv. ring.
Qed.

End LineFit.

(** C4: the regression of [detectDrift] fails on a timeline the recorder
    produces.  Over the rationals the quotient [calculateLinearRegression]
    forms is the ordinary-least-squares slope; in the doubles of the code
    it is not.  [epoch_timeline] holds 100 packets on a perfect clock, 20 ms
    and 960 ticks apart, whose arrival times are readings of [Date.now()]:
    1700000000000, 1700000000020, ...  The points (arrival time,
    timestamp / 48) lie on a line of slope 1, so the ordinary-least-squares
    slope is 1 and R² is 1: the drift of the claim is 0 with confidence 1.
    In the doubles of the code the sums of products of such arrival times
    are of the order of 10^26 and their differences cancel: the divisor
    [n * sumXX - sumX * sumX] comes out as 0, and [detectDrift] reports a
    drift of Infinity, whatever [Math.pow] returns, with a confidence of
    NaN.  The same clock started at 1000 ms is reported as drift 0 with
    confidence 1.  Timestamps without variance are given confidence 1 when
    they are all 0; when they are all 4801 ticks, the mean of the hundred
    equal values is not that value in doubles, the total variance comes
    out as a positive number, and the confidence as -8.5.  With fewer than
    100 packets the result is zero drift and zero confidence, and the
    number of packets. *)
Theorem detectDrift_epoch_clock :
  let packets := UserTimeline.packets epoch_timeline in
  let xs := (fun p => exactQ (AudioPacket.arrivalTime p)) <$> packets in
  let ys := (fun p => exactQ (AudioPacket.timestamp p) / 48)%Q <$> packets in
  (forall xs ys : list Q,
     length xs = length ys -> (0 < length xs)%nat ->
     ~ (OLS.Sxx xs == 0)%Q ->
     ((OLS.count xs * OLS.sum (zip_with Qmult xs ys) - OLS.sum xs * OLS.sum ys)
      / (OLS.count xs * OLS.sum ((fun x => x * x) <$> xs)
         - OLS.sum xs * OLS.sum xs)
      == OLS.Sxy xs ys / OLS.Sxx xs)%Q) /\
  length packets = 100%nat /\
  Forall2 (fun x i => x == inject_Z (1700000000000 + 20 * i))%Q
          xs (seqZ 0 100) /\
  Forall2 (fun y i => y == inject_Z (20 * i))%Q ys (seqZ 0 100) /\
  Num.eq (OLS.slope xs ys) (Some 1%Q) /\
  Num.eq (OLS.r_squared xs ys) (Some 1%Q) /\
  (forall Math_pow,
     DriftInfo.driftMs (DriftCorrector.detectDrift Math_pow epoch_timeline)
     = infinity) /\
  DriftInfo.confidence
    (DriftCorrector.detectDrift rounded_square epoch_timeline) = nan /\
  DriftCorrector.detectDrift rounded_square (steady_timeline 1000 100)
  = DriftInfo.mk 0 1 100 /\
  DriftCorrector.detectDrift rounded_square (stalled_timeline 0 1000 100)
  = DriftInfo.mk (-1000) 1 100 /\
  Forall (fun p => AudioPacket.timestamp p = 4801%float)
         (UserTimeline.packets (stalled_timeline 4801 1000 100)) /\
  DriftInfo.confidence
    (DriftCorrector.detectDrift rounded_square (stalled_timeline 4801 1000 100))
  = (-8.5)%float /\
  (forall Math_pow timeline,
     (length (UserTimeline.packets timeline) < 100)%nat ->
     DriftCorrector.detectDrift Math_pow timeline
     = DriftInfo.mk 0 0 (length (UserTimeline.packets timeline))).
Proof.
  intros packets xs ys.
  assert (Forall2 (on_line (-1700000000000) 1) xs ys) as Hline.
  { refine (bool_decide_unpack _ _). vm_compute. exact I. }
  destruct (OLS_on_line (-1700000000000) 1 xs ys
                        (exactQ (1700000000000)%float)
                        (exactQ (1700000000020)%float) Hline)
    as (Hslope & _ & Hr2).
  { apply (list_elem_of_lookup_2 _ 0%nat). reflexivity. }
  { apply (list_elem_of_lookup_2 _ 1%nat). reflexivity. }
  { vm_compute. discriminate. }
  split; [exact one_pass_slope|].
  split; [reflexivity|].
  split; [refine (bool_decide_unpack _ _); vm_compute; exact I|].
  split; [refine (bool_decide_unpack _ _); vm_compute; exact I|].
  split; [exact Hslope|]. split; [exact Hr2|].
  split; [intros Math_pow; vm_compute; reflexivity|].
  split; [vm_compute; reflexivity|].
  split; [vm_compute; reflexivity|].
  split; [vm_compute; reflexivity|].
  split.
  { apply Forall_fmap, Forall_true. intros i. vm_compute. reflexivity. }
  split; [vm_compute; reflexivity|].
  intros Math_pow timeline Hfew.
  unfold DriftCorrector.detectDrift, DriftCorrector.MIN_SAMPLES_FOR_ANALYSIS.
  by rewrite decide_True.
Qed.

(** * Further properties of the code *)

(** ** Codec *)

Section CodecMore.

Lemma byteZ_range b : 0 <= Buffer.byteZ b <= 255.
Proof.
  unfold Buffer.byteZ. pose proof (Byte.to_N_bounded b). lia.
Qed.

Lemma at_range buffer i : 0 <= Buffer.at_ buffer i <= 255.
Proof.
  unfold Buffer.at_. destruct (buffer !! i); [apply byteZ_range|lia].
Qed.

Lemma at_take buffer n i :
  (i < n)%nat -> Buffer.at_ (take n buffer) i = Buffer.at_ buffer i.
Proof.
  intros Hi. unfold Buffer.at_, Buffer.t. by rewrite lookup_take_lt.
Qed.

Lemma land_low_bits x k : 0 <= k -> 0 <= Z.land x (Z.ones k) < 2 ^ k.
Proof.
  intros Hk. rewrite Z.land_ones by done. apply Z.mod_pos_bound.
  by apply Z.pow_pos_nonneg.
Qed.

End CodecMore.

(** X1.  Every field of a parsed header lies in the range of its width:
    version in 0..3, csrcCount in 0..15, payloadType in 0..127,
    sequenceNumber in 0..65535, timestamp and ssrc in 0..2^32-1. *)
Theorem parseRtpHeader_field_ranges (buffer : Buffer.t) (header : RtpHeader.t) :
  parseRtpHeader buffer = Ok header ->
  0 <= RtpHeader.version header <= 3 /\
  0 <= RtpHeader.csrcCount header <= 15 /\
  0 <= RtpHeader.payloadType header <= 127 /\
  0 <= RtpHeader.sequenceNumber header <= 65535 /\
  0 <= RtpHeader.timestamp header <= 4294967295 /\
  0 <= RtpHeader.ssrc header <= 4294967295.
Proof.
  intros Hparse. unfold parseRtpHeader in Hparse.
  case_decide; [done|].
  unfold Buffer.readUInt16BE, Buffer.readUInt32BE in Hparse.
  repeat case_decide; simplify_eq/=.
  injection Hparse as <-. cbn.
  pose proof (land_low_bits (Z.shiftr (Buffer.at_ buffer 0) 6) 2 ltac:(lia)) as Hv.
  pose proof (land_low_bits (Buffer.at_ buffer 0) 4 ltac:(lia)) as Hc.
  pose proof (land_low_bits (Buffer.at_ buffer 1) 7 ltac:(lia)) as Hp.
  change (Z.ones 2) with 3 in Hv. change (Z.ones 4) with 15 in Hc.
  change (Z.ones 7) with 127 in Hp.
  change (2 ^ 2) with 4 in Hv. change (2 ^ 4) with 16 in Hc.
  change (2 ^ 7) with 128 in Hp.
  pose proof (at_range buffer 2). pose proof (at_range buffer 3).
  pose proof (at_range buffer 4). pose proof (at_range buffer 5).
  pose proof (at_range buffer 6). pose proof (at_range buffer 7).
  pose proof (at_range buffer 8). pose proof (at_range buffer 9).
  pose proof (at_range buffer 10). pose proof (at_range buffer 11).
  change (Z.to_nat 2) with 2%nat. change (Z.to_nat (2 + 1)) with 3%nat.
  change (Z.to_nat 4) with 4%nat. change (Z.to_nat (4 + 1)) with 5%nat.
  change (Z.to_nat (4 + 2)) with 6%nat. change (Z.to_nat (4 + 3)) with 7%nat.
  change (Z.to_nat 8) with 8%nat. change (Z.to_nat (8 + 1)) with 9%nat.
  change (Z.to_nat (8 + 2)) with 10%nat. change (Z.to_nat (8 + 3)) with 11%nat.
  lia.
Qed.

Lemma parseRtpHeader_field_ranges_witness :
  exists header,
    parseRtpHeader extension_packet = Ok header /\
    0 <= RtpHeader.sequenceNumber header <= 65535.
Proof.
  eexists. split; [reflexivity|].
  eapply (parseRtpHeader_field_ranges extension_packet). reflexivity.
Defined.

(** X2.  The header is read from the first 12 bytes alone: whatever
    follows them (CSRC list, extension, payload) does not change what
    [parseRtpHeader] returns. *)
Theorem parseRtpHeader_first_12_bytes (buffer : Buffer.t) :
  (12 <= length buffer)%nat ->
  parseRtpHeader buffer = parseRtpHeader (take 12 buffer).
Proof.
  intros Hlen.
  assert (Buffer.len (take 12 buffer) = 12) as Htake
    by (unfold Buffer.len; rewrite length_take; lia).
  assert (12 <= Buffer.len buffer) as Hlen' by (unfold Buffer.len; lia).
  unfold parseRtpHeader, Buffer.readUInt16BE, Buffer.readUInt32BE.
  rewrite Htake.
  rewrite (decide_False (P := Buffer.len buffer < 12)) by lia.
  rewrite (decide_False (P := 12 < 12)) by lia.
  rewrite !decide_True by lia.
  rewrite !at_take by (cbn; lia). reflexivity.
Qed.

Lemma parseRtpHeader_first_12_bytes_witness :
  parseRtpHeader extension_packet = parseRtpHeader truncated_extension_packet.
Proof.
  rewrite (parseRtpHeader_first_12_bytes extension_packet) by (simpl; lia).
  rewrite (parseRtpHeader_first_12_bytes truncated_extension_packet)
    by (simpl; lia).
  reflexivity.
Defined.

Section PayloadMore.

(** Where the payload of a parsed packet starts, if [extractOpusPayload]
    does not throw: behind the fixed header, the CSRC list and the
    extension. *)
Lemma extractOpusPayload_cases buffer header :
  parseRtpHeader buffer = Ok header ->
  extractOpusPayload buffer
  = Throw (JsError "Buffer too small for RTP extension header")
  \/ exists payloadStart,
       12 <= payloadStart /\
       extractOpusPayload buffer = Ok (Buffer.slice buffer payloadStart).
Proof.
  intros Hparse.
  pose proof (csrcCount_range buffer header Hparse) as Hcc.
  unfold extractOpusPayload. rewrite Hparse, bind_Ok.
  set (start := if decide (RtpHeader.csrcCount header > 0)
                then 12 + RtpHeader.csrcCount header * 4 else 12).
  assert (12 <= start) as Hstart by (subst start; case_decide; lia).
  destruct (RtpHeader.extension header).
  - case_decide; [by left|].
    destruct (readUInt16BE_in_range buffer (start + 2)) as [words Hread];
      [lia..|].
    rewrite Hread. right. exists (start + (4 + words * 4)).
    split; [|done].
    unfold Buffer.readUInt16BE in Hread. case_decide; [|done].
    injection Hread as <-.
    pose proof (at_range buffer (Z.to_nat (start + 2))).
    pose proof (at_range buffer (Z.to_nat (start + 2 + 1))). lia.
  - right. by exists start.
Qed.

End PayloadMore.

(** X3.  [extractOpusPayload] throws nothing but its two own errors (no
    Buffer read of it is ever out of range), and a payload it returns is a
    suffix of the packet that leaves out at least the 12 header bytes. *)
Theorem extractOpusPayload_suffix (buffer : Buffer.t) :
  match extractOpusPayload buffer with
  | Ok payload =>
      payload `suffix_of` buffer /\ (length payload + 12 <= length buffer)%nat
  | Throw e =>
      e = JsError "Buffer too small for RTP header" \/
      e = JsError "Buffer too small for RTP extension header"
  end.
Proof.
  destruct (decide (Buffer.len buffer < 12)) as [Hshort|Hlong].
  - unfold extractOpusPayload.
    rewrite (parseRtpHeader_short buffer Hshort). by left.
  - destruct (parseRtpHeader_long buffer) as (sn & ts & ss & Hparse); [lia|].
    destruct (extractOpusPayload_cases buffer _ Hparse)
      as [->|(payloadStart & Hstart & ->)]; [by right|].
    unfold Buffer.slice. split; [apply suffix_drop|].
    rewrite length_drop. unfold Buffer.len in Hlong. lia.
Qed.

(** X4.  A packet of 12 bytes or more without the extension flag is never
    rejected: its payload is what follows the fixed header and the
    [csrcCount] 4-byte CSRC entries, and is empty when the packet ends
    before that. *)
Theorem extractOpusPayload_no_extension
    (buffer : Buffer.t) (header : RtpHeader.t) :
  parseRtpHeader buffer = Ok header ->
  RtpHeader.extension header = false ->
  extractOpusPayload buffer
  = Ok (drop (12 + 4 * Z.to_nat (RtpHeader.csrcCount header)) buffer).
Proof.
  intros Hparse Hext.
  pose proof (csrcCount_range buffer header Hparse) as Hcc.
  unfold extractOpusPayload. rewrite Hparse, bind_Ok, Hext.
  cbn. unfold Buffer.slice. f_equal. f_equal. case_decide; lia.
Qed.

Lemma extractOpusPayload_no_extension_witness :
  extractOpusPayload csrc_packet = Ok [xaa; xbb]
  /\ extractOpusPayload (take 14 csrc_packet) = Ok [].
Proof.
  split.
  - exact (extractOpusPayload_no_extension csrc_packet _ eq_refl eq_refl).
  - exact (extractOpusPayload_no_extension (take 14 csrc_packet) _
             eq_refl eq_refl).
Defined.

Section ExpectedTimestamp.



Lemma Math_round_mono (x y : Q) : (x <= y)%Q -> Math_round x <= Math_round y.
Proof.
  intros Hxy. unfold Math_round. apply Qfloor_resp_le.
  by apply Qplus_le_l.
Qed.

End ExpectedTimestamp.



(** ** Jitter buffer *)

Section QueueOrder.

Import JitterBuffer JitterBufferPacket.

Lemma sort_insert_behind p sorted :
  Forall (fun q => sequence q <= sequence p) sorted ->
  sort_insert p sorted = sorted ++ [p].
Proof.
  induction 1 as [|q sorted Hq Hall IH]; [done|]. simpl.
  rewrite decide_False by lia. by rewrite IH.
Qed.

(** The sort leaves a queue in order as it is. *)
Lemma sort_from_sorted queue sorted :
  by_sequence (sorted ++ queue) ->
  foldl (fun sorted p => sort_insert p sorted) sorted queue = sorted ++ queue.
Proof.
  revert sorted. induction queue as [|p queue IH]; intros sorted Hsorted.
  - by rewrite app_nil_r.
  - cbn [foldl]. rewrite sort_insert_behind.
    + rewrite IH; rewrite <- app_assoc; done.
    + apply StronglySorted_app in Hsorted as (Hcross & _ & _).
      apply Forall_forall. intros q Hq. apply Hcross; [done|set_solver].
Qed.

Lemma sort_sorted queue : by_sequence queue -> sort queue = queue.
Proof. intros Hsorted. by apply (sort_from_sorted queue []). Qed.

Lemma sort_app_one queue p :
  by_sequence queue -> sort (queue ++ [p]) = sort_insert p queue.
Proof.
  intros Hsorted. unfold sort. rewrite foldl_app. cbn [foldl].
  by rewrite (sort_from_sorted queue []).
Qed.

Lemma filter_all {A} (P : A -> Prop) `{forall x, Decision (P x)} (l : list A) :
  Forall P l -> filter P l = l.
Proof.
  induction 1 as [|x l Hx Hall IH]; [done|].
  by rewrite filter_cons_True, IH.
Qed.

Lemma filter_none {A} (P : A -> Prop) `{forall x, Decision (P x)} (l : list A) :
  Forall (fun x => ~ P x) l -> filter P l = [].
Proof.
  induction 1 as [|x l Hx Hall IH]; [done|].
  by rewrite filter_cons_False.
Qed.

Lemma sort_insert_position p sorted :
  by_sequence sorted ->
  sort_insert p sorted
  = filter (fun q => sequence q <= sequence p) sorted
    ++ p :: filter (fun q => sequence p < sequence q) sorted.
Proof.
  induction sorted as [|q sorted IH]; intros Hsorted; [done|].
  apply by_sequence_cons in Hsorted as [Hhead Htail]. cbn [sort_insert].
  case_decide as Hlt.
  - rewrite filter_none, filter_all; [done|..];
      (constructor; [lia|]; eapply Forall_impl; [exact Hhead|]; simpl; lia).
  - rewrite filter_cons_True by lia.
    rewrite (filter_cons_False (fun q => sequence p < sequence q)) by lia.
    by rewrite IH.
Qed.

Lemma first_with_sequence_sort_insert s p sorted found :
  by_sequence sorted ->
  first_with_sequence s sorted = Some found ->
  first_with_sequence s (sort_insert p sorted) = Some found.
Proof.
  induction sorted as [|q sorted IH]; intros Hsorted Hfirst; [done|].
  pose proof Hsorted as Hsorted'.
  apply by_sequence_cons in Hsorted as [Hhead Htail]. cbn [sort_insert].
  case_decide as Hlt.
  - rewrite first_with_sequence_cons. rewrite decide_False; [done|].
    intros Hs.
    destruct (by_sequence_head (q :: sorted) found Hsorted')
      as (oldest & rest & Heq & Hle).
    { pose proof (first_with_sequence_find s (q :: sorted)) as Hfind.
      destruct (list_find _ (q :: sorted)) as [[i x]|]; [|congruence].
      destruct Hfind as (Hx & Hlookup & _).
      rewrite Hfirst in Hx. injection Hx as ->.
      by eapply list_elem_of_lookup_2. }
    injection Heq as <- <-.
    apply first_with_sequence_Some in Hfirst. lia.
  - rewrite first_with_sequence_cons in Hfirst |- *.
    case_decide; [done|]. by apply IH.
Qed.

End QueueOrder.

(** X6.  [bufferPacket] keeps a sorted queue sorted, and puts the new
    packet behind every buffered packet whose sequence number is not
    larger: packets with one sequence number stay in their order of
    arrival. *)
Theorem bufferPacket_position
    (jb : JitterBuffer.t) (packet : JitterBufferPacket.t) (now : Z) :
  JitterBuffer.by_sequence (JitterBuffer.packetQueue jb) ->
  JitterBuffer.packetQueue (JitterBuffer.bufferPacket jb packet now)
  = filter (fun q => JitterBufferPacket.sequence q
                     <= JitterBufferPacket.sequence packet)
           (JitterBuffer.packetQueue jb)
    ++ stamped packet now
       :: filter (fun q => JitterBufferPacket.sequence packet
                           < JitterBufferPacket.sequence q)
                 (JitterBuffer.packetQueue jb).
Proof.
  intros Hsorted. unfold JitterBuffer.bufferPacket, stamped.
  destruct (negb (JitterBuffer.isInitialized jb));
    cbn [JitterBuffer.packetQueue];
    rewrite sort_app_one by done;
    by rewrite sort_insert_position.
Qed.

Lemma bufferPacket_position_witness :
  JitterBufferPacket.bufferedAt
    <$> JitterBuffer.packetQueue
          (bufferPackets JitterBuffer.new
             [(packet_numbered 7, 1); (packet_numbered 5, 2);
              (packet_numbered 7, 3); (packet_numbered 6, 4);
              (packet_numbered 7, 5)])
  = [2; 4; 1; 3; 5].
Proof.
  unfold bufferPackets. cbn [foldl fst snd].
  rewrite bufferPacket_position; [reflexivity|].
  unfold JitterBuffer.by_sequence.
  refine (bool_decide_unpack _ _). vm_compute. exact I.
Defined.

Section BufferInvariants.

Import JitterBuffer JitterBufferPacket.

Lemma flush_by_sequence jb clock :
  by_sequence (packetQueue jb) -> by_sequence (packetQueue (flush jb clock).1).
Proof.
  intros Hsorted. destruct (flush jb clock) as [jb' flushed] eqn:Hflush.
  destruct (flush_spec_order _ _ _ _ Hflush) as (_ & _ & _ & _ & Hsub & _).
  by eapply by_sequence_sublist.
Qed.

(** A buffer that is not initialized is a new buffer, and kept so by
    [flush]. *)
Lemma flush_new clock : flush new clock = (new, []).
Proof. reflexivity. Qed.

Lemma run_invariant calls jb :
  by_sequence (packetQueue jb) ->
  (isInitialized jb = false -> jb = new) ->
  by_sequence (packetQueue (run jb calls).1) /\
  (isInitialized (run jb calls).1 = false -> (run jb calls).1 = new).
Proof.
  revert jb. induction calls as [|c calls IH]; intros jb Hsorted Hnew; [done|].
  destruct c as [packet now|clock|]; cbn [run].
  - destruct (bufferPacket_spec jb packet now) as (_ & Hs & Hinit & _).
    apply IH; [done|congruence].
  - pose proof (flush_by_sequence jb clock Hsorted) as Hs.
    destruct (flush jb clock) as [jb1 flushed] eqn:Hflush.
    specialize (IH jb1). destruct (run jb1 calls) as [jb2 later].
    apply IH; [done|].
    destruct (flush_spec_order _ _ _ _ Hflush) as (_ & _ & _ & Hinit & _).
    intros Hjb1. rewrite Hinit in Hjb1. rewrite (Hnew Hjb1) in Hflush.
    rewrite flush_new in Hflush. congruence.
  - apply IH; [constructor|done].
Qed.

End BufferInvariants.

(** X7.  Whatever is called on a jitter buffer since its creation, in
    whatever order, its queue is in sequence order, and as long as it is
    not initialized (no packet buffered since creation or the last
    [clear]) it is in the state of a new buffer. *)
Theorem jitterBuffer_invariant (calls : list JitterBuffer.call) :
  let jb := (JitterBuffer.run JitterBuffer.new calls).1 in
  JitterBuffer.by_sequence (JitterBuffer.packetQueue jb) /\
  (JitterBuffer.isInitialized jb = false -> jb = JitterBuffer.new).
Proof. apply run_invariant; [constructor|done]. Qed.

(** X8.  [flush] returns at least one frame exactly when [shouldFlush]
    holds; it then moves [expectedSequence] forward by at least one and
    records the time as [lastFlushTime], and otherwise changes nothing. *)
Theorem flush_emits_iff_shouldFlush (jb : JitterBuffer.t) (clock : Clock) :
  ((JitterBuffer.flush jb clock).2 <> [] <->
   JitterBuffer.shouldFlush jb (clock 0%nat) = true) /\
  (JitterBuffer.shouldFlush jb (clock 0%nat) = true ->
   JitterBuffer.expectedSequence jb + 1
     <= JitterBuffer.expectedSequence (JitterBuffer.flush jb clock).1 /\
   JitterBuffer.lastFlushTime (JitterBuffer.flush jb clock).1 = clock 1%nat) /\
  (JitterBuffer.shouldFlush jb (clock 0%nat) = false ->
   JitterBuffer.flush jb clock = (jb, [])).
Proof.
  destruct (JitterBuffer.shouldFlush jb (clock 0%nat)) eqn:Hshould.
  - destruct (flush_active _ _ Hshould) as (queue & flushed & Hloop & ->).
    pose proof (expectedPackets_pos jb (clock 2%nat)) as Hpos.
    cbn [fst snd JitterBuffer.expectedSequence JitterBuffer.lastFlushTime].
    split; [|split; [intros _; split; [lia|done]|done]].
    split; [done|]. intros _.
    destruct (shouldFlush_nonempty _ _ Hshould) as (oldest & rest & Hqueue).
    destruct (Z.to_nat (JitterBuffer.expectedPackets jb (clock 2%nat)))
      as [|slots] eqn:Hslots; [lia|].
    destruct (flush_loop_S clock (JitterBuffer.expectedSequence jb) slots 0 3
                           (JitterBuffer.packetQueue jb))
      as (packet & queue1 & reads1 & Hstep & _); [by rewrite Hqueue|].
    rewrite Hstep in Hloop.
    destruct (JitterBuffer.flush_loop _ _ _ _ _ queue1). by simplify_eq.
  - rewrite (flush_idle _ _ Hshould).
    split; [|split; [done|done]]. split; [done|done].
Qed.

Lemma flush_emits_iff_shouldFlush_witness :
  (JitterBuffer.flush lone_packet_buffer (fun _ => 100)).2 <> []
  /\ JitterBuffer.flush lone_packet_buffer (fun _ => 5)
     = (lone_packet_buffer, []).
Proof.
  split.
  - apply (flush_emits_iff_shouldFlush lone_packet_buffer (fun _ => 100)).
    reflexivity.
  - apply (flush_emits_iff_shouldFlush lone_packet_buffer (fun _ => 5)).
    reflexivity.
Defined.

Section FirstFrame.

Import JitterBuffer JitterBufferPacket.

Lemma bufferPackets_first arrivals jb found :
  isInitialized jb = true ->
  by_sequence (packetQueue jb) ->
  first_with_sequence (expectedSequence jb) (packetQueue jb) = Some found ->
  let jb' := bufferPackets jb arrivals in
  isInitialized jb' = true /\
  expectedSequence jb' = expectedSequence jb /\
  by_sequence (packetQueue jb') /\
  first_with_sequence (expectedSequence jb) (packetQueue jb') = Some found.
Proof.
  revert jb. induction arrivals as [|[packet now] arrivals IH];
    intros jb Hinit Hsorted Hfirst; [done|].
  unfold bufferPackets. cbn [foldl fst snd].
  destruct (bufferPacket_spec jb packet now)
    as (_ & Hsorted1 & Hinit1 & _ & Hexpected).
  rewrite Hinit in Hexpected.
  destruct (IH (bufferPacket jb packet now)) as (H1 & H2 & H3 & H4);
    [done|done| |].
  - rewrite Hexpected.
    assert (packetQueue (bufferPacket jb packet now)
            = sort_insert (stamped packet now) (packetQueue jb)) as ->.
    { unfold bufferPacket, stamped.
      destruct (negb (isInitialized jb)); cbn [packetQueue];
        by rewrite sort_app_one. }
    by apply first_with_sequence_sort_insert.
  - rewrite Hexpected in H2, H4. done.
Qed.

End FirstFrame.

(** X9.  The first frame a new buffer emits is the first packet that was
    buffered: however many packets are buffered before the first [flush]
    that fires, with lower, equal or higher sequence numbers, that
    [flush] returns the first-buffered packet first. *)
Theorem first_frame_is_first_packet
    (packet : JitterBufferPacket.t) (now : Z)
    (arrivals : list (JitterBufferPacket.t * Z)) (clock : Clock) :
  let jb := bufferPackets JitterBuffer.new ((packet, now) :: arrivals) in
  JitterBuffer.shouldFlush jb (clock 0%nat) = true ->
  head (JitterBuffer.flush jb clock).2 = Some (stamped packet now).
Proof.
  intros jb Hshould. subst jb.
  unfold bufferPackets in *. cbn [foldl fst snd] in *.
  fold (bufferPackets (JitterBuffer.bufferPacket JitterBuffer.new packet now)
                      arrivals) in *.
  destruct (bufferPackets_first
              arrivals (JitterBuffer.bufferPacket JitterBuffer.new packet now)
              (stamped packet now))
    as (_ & Hexpected & _ & Hfirst); [done|apply bufferPacket_spec| |].
  { cbn. unfold JitterBuffer.first_with_sequence. cbn.
    by rewrite decide_True. }
  set (jb := bufferPackets _ arrivals) in *.
  destruct (flush_active _ _ Hshould) as (queue & flushed & Hloop & ->).
  cbn [snd].
  pose proof (expectedPackets_pos jb (clock 2%nat)) as Hpos.
  destruct (shouldFlush_nonempty _ _ Hshould) as (oldest & rest & Hqueue).
  destruct (Z.to_nat (JitterBuffer.expectedPackets jb (clock 2%nat)))
    as [|slots] eqn:Hslots; [lia|].
  destruct (flush_loop_S clock (JitterBuffer.expectedSequence jb) slots 0 3
                         (JitterBuffer.packetQueue jb))
    as (first & queue1 & reads1 & Hstep & _ & Hslot); [by rewrite Hqueue|].
  rewrite Hstep in Hloop.
  destruct (JitterBuffer.flush_loop _ _ _ _ _ queue1). simplify_eq. cbn.
  rewrite Z.add_0_r, Hexpected in Hslot.
  cbn [JitterBuffer.expectedSequence JitterBuffer.bufferPacket
       JitterBuffer.new JitterBuffer.isInitialized negb] in Hslot, Hfirst.
  rewrite Hfirst in Hslot. by destruct Hslot as [-> _].
Qed.

Lemma first_frame_is_first_packet_witness :
  head (JitterBuffer.flush
          (bufferPackets JitterBuffer.new
             [(packet_numbered 7, 1); (packet_numbered 5, 2);
              (packet_numbered 7, 3)])
          (fun _ => 40)).2
  = Some (stamped (packet_numbered 7) 1).
Proof.
  apply (first_frame_is_first_packet
           (packet_numbered 7) 1
           [(packet_numbered 5, 2); (packet_numbered 7, 3)] (fun _ => 40)).
  reflexivity.
Defined.

Section Conservation.

Import JitterBuffer JitterBufferPacket.

Lemma first_with_sequence_elem s queue p :
  first_with_sequence s queue = Some p -> p ∈ queue.
Proof.
  intros Hfirst.
  pose proof (first_with_sequence_find s queue) as Hfind.
  destruct (list_find _ queue) as [[i x]|]; [|congruence].
  destruct Hfind as (Hx & Hlookup & _).
  rewrite Hfirst in Hx. injection Hx as ->.
  by eapply list_elem_of_lookup_2.
Qed.

(** One [flush]: what was queued is still queued or is among the frames
    returned, and a frame returned was queued or is a silence packet. *)
Lemma flush_conserves jb clock jb' flushed :
  flush jb clock = (jb', flushed) ->
  (forall p, p ∈ packetQueue jb -> p ∈ packetQueue jb' \/ p ∈ flushed) /\
  (forall p, p ∈ flushed ->
             p ∈ packetQueue jb \/
             exists s now, p = createSilencePacket s now) /\
  (forall p, p ∈ packetQueue jb' -> p ∈ packetQueue jb).
Proof.
  intros Hflush.
  destruct (flush_spec_order _ _ _ _ Hflush) as (_ & _ & _ & _ & Hsub & _).
  split; [|split; [|intros p Hp; by eapply elem_of_sublist]].
  - destruct (shouldFlush jb (clock 0%nat)) eqn:Hshould.
    + destruct (flush_active _ _ Hshould) as (queue & flushed0 & Hloop & Heq).
      rewrite Heq in Hflush. simplify_eq. cbn [packetQueue].
      pose proof (flush_loop_slots _ _ _ _ _ _ _ _ Hloop) as Hslots.
      pose proof (flush_loop_removed _ _ _ _ _ _ _ _ Hloop) as Hremoved.
      intros p Hp. rewrite Hremoved in Hp.
      apply elem_of_app in Hp as [Hp|Hp]; [right|by left].
      apply list_elem_of_omap in Hp as (s & Hs & Hfirst).
      apply elem_of_seqZ in Hs.
      assert (is_Some (flushed !! Z.to_nat (s - (expectedSequence jb + 0))))
        as [packet Hpacket] by (apply lookup_lt_is_Some; lia).
      specialize (Hslots _ _ Hpacket).
      replace (expectedSequence jb + 0
               + Z.of_nat (Z.to_nat (s - (expectedSequence jb + 0))))
        with s in Hslots by lia.
      rewrite Hfirst in Hslots. subst packet.
      by eapply list_elem_of_lookup_2.
    + rewrite (flush_idle _ _ Hshould) in Hflush. simplify_eq. by left.
  - destruct (shouldFlush jb (clock 0%nat)) eqn:Hshould.
    + destruct (flush_active _ _ Hshould) as (queue & flushed0 & Hloop & Heq).
      rewrite Heq in Hflush. simplify_eq.
      pose proof (flush_loop_slots _ _ _ _ _ _ _ _ Hloop) as Hslots.
      intros p (slot & Hslot)%list_elem_of_lookup_1.
      specialize (Hslots _ _ Hslot).
      destruct (first_with_sequence _ (packetQueue jb)) as [buffered|] eqn:Hb.
      * subst p. left. by eapply first_with_sequence_elem.
      * right. destruct Hslots as [now ->]. eauto.
    + rewrite (flush_idle _ _ Hshould) in Hflush. simplify_eq.
      by intros p ?%elem_of_nil.
Qed.

Lemma bufferPacket_elem jb packet now p :
  p ∈ packetQueue (bufferPacket jb packet now) <->
  p ∈ packetQueue jb \/ p = stamped packet now.
Proof.
  destruct (bufferPacket_spec jb packet now) as (Hperm & _).
  rewrite Hperm, elem_of_app, list_elem_of_singleton. reflexivity.
Qed.

End Conservation.

(** X10.  Between two calls of [clear] no packet is lost and none is made
    up: every packet that was in the queue or has been buffered since is
    still in the queue or has been emitted; every frame emitted is such a
    packet or a silence packet; and the queue holds nothing else. *)
Theorem packets_conserved
    (jb : JitterBuffer.t) (calls : list JitterBuffer.call) :
  JitterBuffer.no_clear calls = true ->
  let jb' := (JitterBuffer.run jb calls).1 in
  let emitted := (JitterBuffer.run jb calls).2 in
  (forall p,
     p ∈ JitterBuffer.packetQueue jb \/ p ∈ buffered_by calls ->
     p ∈ JitterBuffer.packetQueue jb' \/ p ∈ emitted) /\
  (forall p,
     p ∈ emitted ->
     p ∈ JitterBuffer.packetQueue jb \/ p ∈ buffered_by calls \/
     exists s now, p = JitterBuffer.createSilencePacket s now) /\
  (forall p,
     p ∈ JitterBuffer.packetQueue jb' ->
     p ∈ JitterBuffer.packetQueue jb \/ p ∈ buffered_by calls).
Proof.
  revert jb. induction calls as [|c calls IH]; intros jb Hcalls.
  - cbn. split; [|split].
    + intros p [Hp|Hp]; [by left|by apply elem_of_nil in Hp].
    + by intros p ?%elem_of_nil.
    + intros p Hp. by left.
  - apply no_clear_cons in Hcalls as [Hc Hcalls].
    destruct c as [packet now|clock|]; [| |done].
    + cbn [JitterBuffer.run buffered_by omap list_omap].
      fold (buffered_by calls).
      destruct (IH (JitterBuffer.bufferPacket jb packet now) Hcalls)
        as (Hkept & Hemitted & Hqueue).
      split; [|split].
      * intros p Hp. apply Hkept.
        rewrite bufferPacket_elem. rewrite elem_of_cons in Hp. tauto.
      * intros p Hp. specialize (Hemitted p Hp).
        rewrite bufferPacket_elem in Hemitted. rewrite elem_of_cons. tauto.
      * intros p Hp. specialize (Hqueue p Hp).
        rewrite bufferPacket_elem in Hqueue. rewrite elem_of_cons. tauto.
    + cbn [JitterBuffer.run buffered_by omap list_omap].
      fold (buffered_by calls).
      destruct (JitterBuffer.flush jb clock) as [jb1 flushed] eqn:Hflush.
      specialize (IH jb1 Hcalls).
      destruct (JitterBuffer.run jb1 calls) as [jb2 later].
      cbn [fst snd] in *.
      destruct IH as (Hkept & Hemitted & Hqueue).
      destruct (flush_conserves _ _ _ _ Hflush) as (Hkept1 & Hemitted1 & Hqueue1).
      split; [|split].
      * intros p Hp. rewrite elem_of_app.
        destruct Hp as [Hp|Hp].
        -- destruct (Hkept1 p Hp) as [Hq|Hf]; [|tauto].
           destruct (Hkept p (or_introl Hq)); tauto.
        -- destruct (Hkept p (or_intror Hp)); tauto.
      * intros p [Hp|Hp]%elem_of_app.
        -- destruct (Hemitted1 p Hp); [by left|by right; right].
        -- destruct (Hemitted p Hp) as [Hq|[Hb|Hs]];
             [left; by apply Hqueue1|by right; left|by right; right].
      * intros p Hp. destruct (Hqueue p Hp) as [Hq|Hb];
          [left; by apply Hqueue1|by right].
Qed.

Lemma packets_conserved_witness :
  stamped (packet_numbered 5) 5
    ∈ JitterBuffer.packetQueue
        (JitterBuffer.run JitterBuffer.new
           [JitterBuffer.BufferPacket (packet_numbered 7) 0;
            JitterBuffer.BufferPacket (packet_numbered 5) 5;
            JitterBuffer.Flush (fun _ => 40)]).1.
Proof.
  destruct (packets_conserved
              JitterBuffer.new
              [JitterBuffer.BufferPacket (packet_numbered 7) 0;
               JitterBuffer.BufferPacket (packet_numbered 5) 5;
               JitterBuffer.Flush (fun _ => 40)])
    as (Hkept & _); [reflexivity|].
  destruct (Hkept (stamped (packet_numbered 5) 5)) as [Hq|He].
  - right. cbn. apply elem_of_cons. right. apply elem_of_cons. by left.
  - exact Hq.
  - exfalso. vm_compute in He.
    apply elem_of_cons in He as [He|He]; [discriminate|by apply elem_of_nil in He].
Defined.

(** ** Stream handler *)

Section HandlePacket.

Variable OpusScript : Type.

Lemma extractOpusPayload_parses chunk payload :
  extractOpusPayload chunk = Ok payload ->
  exists header, parseRtpHeader chunk = Ok header.
Proof.
  unfold extractOpusPayload.
  destruct (parseRtpHeader chunk) as [header|e]; [eauto|done].
Qed.

Lemma handlePacket_rejected (h : StreamHandler OpusScript) chunk r :
  isActive (worker h) = false \/ (exists e, extractOpusPayload chunk = Throw e) ->
  worker (handlePacket h chunk r) = worker h.
Proof.
  intros Hrejected. unfold handlePacket.
  destruct (isActive (worker h)) eqn:Hactive; cbn [negb]; [|done].
  destruct Hrejected as [?|[e Hthrow]]; [done|].
  destruct (parseRtpHeader chunk) as [header|]; [|done].
  rewrite Hthrow. by destruct (negb (hasCapturedMetadata h)).
Qed.

Lemma handlePacket_accepted (h : StreamHandler OpusScript) chunk r header payload :
  isActive (worker h) = true ->
  parseRtpHeader chunk = Ok header ->
  extractOpusPayload chunk = Ok payload ->
  jitterBuffer (worker (handlePacket h chunk r))
  = JitterBuffer.bufferPacket
      (jitterBuffer (worker h))
      (JitterBufferPacket.mk payload (RtpHeader.sequenceNumber header)
                             (RtpHeader.timestamp header) (arrivalTime r))
      (bufferTime r).
Proof.
  intros Hactive Hparse Hextract. unfold handlePacket.
  rewrite Hactive, Hparse, Hextract. cbn [negb].
  by destruct (negb (hasCapturedMetadata h)).
Qed.

Lemma handlePacket_metadata_kept (h : StreamHandler OpusScript) chunk r :
  hasCapturedMetadata h = true ->
  hasCapturedMetadata (handlePacket h chunk r) = true /\
  metadata (handlePacket h chunk r) = metadata h.
Proof.
  intros Hcaptured. unfold handlePacket.
  destruct (negb (isActive (worker h))); [done|].
  destruct (parseRtpHeader chunk) as [header|]; [|done].
  rewrite Hcaptured. cbn [negb].
  by destruct (extractOpusPayload chunk).
Qed.

End HandlePacket.

(** X11.  A packet the handler cannot use leaves no trace in its worker
    state: when the handler is stopped, or the chunk has fewer than 12
    bytes, or its payload cannot be extracted, the jitter buffer, the PCM
    stream and the decoder are as before, and nothing is thrown to the
    packet source.  A short chunk or a stopped handler changes nothing at
    all. *)
Theorem handlePacket_drops_malformed
    (OpusScript : Type) (h : StreamHandler OpusScript)
    (chunk : Buffer.t) (r : Readings) :
  (isActive (worker h) = false \/ (length chunk < 12)%nat ->
   handlePacket h chunk r = h) /\
  ((exists e, extractOpusPayload chunk = Throw e) ->
   worker (handlePacket h chunk r) = worker h).
Proof.
  split.
  - intros Hdropped. unfold handlePacket.
    destruct (isActive (worker h)); cbn [negb]; [|done].
    destruct Hdropped as [?|Hshort]; [done|].
    rewrite parseRtpHeader_short; [done|unfold Buffer.len; lia].
  - intros Hthrow. apply handlePacket_rejected. by right.
Qed.

Lemma handlePacket_drops_malformed_witness :
  handlePacket (newStreamHandler "alice" tt) [x80; x78; x00] sample_readings
  = newStreamHandler "alice" tt
  /\ worker (handlePacket (newStreamHandler "alice" tt) header_only_packet
                          sample_readings)
     = worker (newStreamHandler "alice" tt).
Proof.
  split.
  - apply (handlePacket_drops_malformed unit). right. simpl. lia.
  - apply (handlePacket_drops_malformed unit). eexists. reflexivity.
Defined.

(** X12.  A packet whose payload can be extracted is buffered, and only
    it: the queue grows by exactly one packet, which carries the payload
    (a suffix of the chunk), the 16-bit sequence number and the timestamp
    of the header, stamped with the time of buffering; the queue is left
    in sequence order. *)
Theorem handlePacket_buffers_one
    (OpusScript : Type) (h : StreamHandler OpusScript)
    (chunk : Buffer.t) (r : Readings) (payload : Buffer.t) :
  isActive (worker h) = true ->
  extractOpusPayload chunk = Ok payload ->
  exists header,
    parseRtpHeader chunk = Ok header /\
    let buffered :=
      JitterBufferPacket.mk payload (RtpHeader.sequenceNumber header)
                            (RtpHeader.timestamp header) (bufferTime r) in
    let queue := JitterBuffer.packetQueue (jitterBuffer (worker h)) in
    let queue' :=
      JitterBuffer.packetQueue (jitterBuffer (worker (handlePacket h chunk r))) in
    queue' ≡ₚ queue ++ [buffered] /\
    length queue' = S (length queue) /\
    JitterBuffer.by_sequence queue' /\
    0 <= JitterBufferPacket.sequence buffered <= 65535 /\
    payload `suffix_of` chunk.
Proof.
  intros Hactive Hextract.
  destruct (extractOpusPayload_parses chunk payload Hextract)
    as [header Hparse].
  exists header. split; [done|]. cbn zeta.
  rewrite (handlePacket_accepted _ h chunk r header payload) by done.
  destruct (bufferPacket_spec
              (jitterBuffer (worker h))
              (JitterBufferPacket.mk payload (RtpHeader.sequenceNumber header)
                                     (RtpHeader.timestamp header)
                                     (arrivalTime r))
              (bufferTime r)) as (Hperm & Hsorted & _).
  cbn in Hperm.
  split; [done|]. split.
  { rewrite Hperm, length_app. cbn. lia. }
  split; [done|]. split.
  { cbn. by apply (parseRtpHeader_field_ranges chunk header). }
  pose proof (extractOpusPayload_suffix chunk) as Hsuffix.
  rewrite Hextract in Hsuffix. by destruct Hsuffix.
Qed.

Lemma handlePacket_buffers_one_witness :
  JitterBuffer.packetQueue
    (jitterBuffer
       (worker (handlePacket (newStreamHandler "alice" tt) extension_packet
                             sample_readings)))
  ≡ₚ [JitterBufferPacket.mk [xaa; xbb] 1 0 1002].
Proof.
  destruct (handlePacket_buffers_one
              unit (newStreamHandler "alice" tt) extension_packet
              sample_readings [xaa; xbb])
    as (header & Hparse & Hperm & _); [reflexivity|reflexivity|].
  vm_compute in Hparse. injection Hparse as <-. exact Hperm.
Defined.

(** X13.  Metadata is captured once, from the first chunk whose header
    parses, before the payload is looked at: a first packet with a
    parsable header sets the metadata (ssrc and RTP timestamp of that
    header, the high-resolution time read then) even if its payload
    cannot be extracted and the packet is dropped; and once captured, no
    later packet changes it. *)
Theorem metadata_captured_once
    (OpusScript : Type) (h : StreamHandler OpusScript)
    (chunk : Buffer.t) (r : Readings)
    (later : list (Buffer.t * Readings)) :
  (forall header,
     isActive (worker h) = true ->
     hasCapturedMetadata h = false ->
     parseRtpHeader chunk = Ok header ->
     exists filename,
       metadata (handlePackets h ((chunk, r) :: later))
       = Some (TrackMetadata.mk (userId (worker h)) (RtpHeader.ssrc header)
                                (RtpHeader.timestamp header) (hrtime r)
                                48000 48000 filename))
  /\ (hasCapturedMetadata h = true ->
      metadata (handlePackets h ((chunk, r) :: later)) = metadata h).
Proof.
  assert (forall (chunks : list (Buffer.t * Readings)) (h0 : StreamHandler OpusScript),
            hasCapturedMetadata h0 = true ->
            metadata (handlePackets h0 chunks) = metadata h0) as Hkept.
  { induction chunks as [|[c rc] chunks IH]; intros h0 Hcaptured; [done|].
    unfold handlePackets. cbn [foldl fst snd].
    destruct (handlePacket_metadata_kept _ h0 c rc Hcaptured) as [H1 H2].
    fold (handlePackets (handlePacket h0 c rc) chunks).
    by rewrite IH. }
  split; [|by apply Hkept].
  intros header Hactive Hfresh Hparse.
  unfold handlePackets. cbn [foldl fst snd].
  fold (handlePackets (handlePacket h chunk r) later).
  assert (hasCapturedMetadata (handlePacket h chunk r) = true /\
          exists filename,
            metadata (handlePacket h chunk r)
            = Some (TrackMetadata.mk (userId (worker h)) (RtpHeader.ssrc header)
                                     (RtpHeader.timestamp header) (hrtime r)
                                     48000 48000 filename)) as [Hc [filename Hm]].
  { unfold handlePacket. rewrite Hactive, Hparse, Hfresh. cbn [negb].
    destruct (extractOpusPayload chunk); cbn; eauto. }
  exists filename. by rewrite Hkept.
Qed.

Lemma metadata_captured_once_witness :
  exists filename,
    metadata (handlePackets (newStreamHandler "alice" tt)
                [(header_only_packet, sample_readings);
                 (extension_packet, mkReadings 2000 2001 (8, 0) 2002)])
    = Some (TrackMetadata.mk "alice" 1 0 (7, 500000000) 48000 48000 filename).
Proof.
  destruct (proj1 (metadata_captured_once
                     unit (newStreamHandler "alice" tt) header_only_packet
                     sample_readings
                     [(extension_packet, mkReadings 2000 2001 (8, 0) 2002)])
                  _ eq_refl eq_refl eq_refl) as [filename Hm].
  exists filename. exact Hm.
Defined.

(** X14.  [stop] never throws and writes nothing: it clears [isActive]
    before it calls [processJitterBuffer], which therefore returns at
    once, so the packets still buffered are cleared without being decoded.
    It leaves the handler inactive with a new jitter buffer, the timer
    cleared and the PCM stream ended, and a second [stop] changes
    nothing. *)
Theorem stop_discards_buffered
    (OpusScript : Type)
    (decode : OpusScript -> Buffer.t -> OpusScript * result Buffer.t)
    (h : StreamHandler OpusScript) (clock : Clock) :
  exists h',
    stop OpusScript decode h clock = Ok h' /\
    pcmStream (worker h') = pcmStream (worker h) /\
    opusDecoder (worker h') = opusDecoder (worker h) /\
    metadata h' = metadata h /\
    isActive (worker h') = false /\
    (isActive (worker h) = true ->
     jitterBuffer (worker h') = JitterBuffer.new /\
     flushInterval h' = false /\ pcmEnded h' = true) /\
    (forall clock', stop OpusScript decode h' clock' = Ok h').
Proof.
  unfold stop. destruct (isActive (worker h)) eqn:Hactive; cbn [negb].
  - unfold processJitterBuffer. cbn [isActive negb]. rewrite bind_Ok.
    eexists. split; [reflexivity|]. cbn. repeat split.
  - exists h. rewrite Hactive. cbn. by repeat split.
Qed.

Lemma stop_discards_buffered_witness :
  exists h',
    stop unit picky_decode recording_handler (fun _ => 80) = Ok h' /\
    pcmStream (worker h') = [] /\
    jitterBuffer (worker h') = JitterBuffer.new.
Proof.
  destruct (stop_discards_buffered unit picky_decode recording_handler
                                   (fun _ => 80))
    as (h' & Hstop & Hpcm & _ & _ & _ & Hactive & _).
  exists h'. split; [exact Hstop|]. split; [exact Hpcm|].
  apply Hactive. reflexivity.
Defined.

Section Tick.

Variable OpusScript : Type.
Variable decode : OpusScript -> Buffer.t -> OpusScript * result Buffer.t.

Lemma processPackets_blocks packets (w : UserStreamHandler OpusScript) :
  (forall d data d' pcm,
     decode d data = (d', Ok pcm) -> length pcm = 3840%nat) ->
  Forall (fun block => length block = 3840%nat) (pcmStream w) ->
  exists w',
    processPackets OpusScript decode w packets = Ok w' /\
    Forall (fun block => length block = 3840%nat) (pcmStream w').
Proof.
  intros Hdecode. revert w.
  induction packets as [|packet packets IH]; intros w Hw; [by exists w|].
  destruct (processPacket_spec OpusScript decode w packet)
    as (block & Hstep & Hblock).
  cbn [processPackets]. rewrite Hstep, bind_Ok.
  apply IH. cbn [pcmStream].
  apply Forall_app. split; [done|]. constructor; [|constructor].
  destruct (decode (opusDecoder w) (JitterBufferPacket.data packet))
    as [d' [pcm|e]] eqn:Hd; cbn [snd] in Hblock; subst block.
  - by eapply Hdecode.
  - apply length_replicate.
Qed.

Lemma Forall_length_concat (blocks : list Buffer.t) (n : nat) :
  Forall (fun block => length block = n) blocks ->
  length (concat blocks) = (n * length blocks)%nat.
Proof.
  induction 1 as [|block blocks Hblock Hall IH]; [cbn; lia|].
  cbn. rewrite length_app, IH, Hblock. lia.
Qed.

End Tick.

(** X15.  With a decoder whose frames are 3840 bytes long (20 ms of 48 kHz
    16-bit stereo), every tick keeps the PCM stream a sequence of 3840-byte
    blocks: the bytes persisted stay a whole number of frames, whether the
    frames decode or are concealed. *)
Theorem pcm_whole_frames
    (OpusScript : Type)
    (decode : OpusScript -> Buffer.t -> OpusScript * result Buffer.t)
    (w : UserStreamHandler OpusScript) (clock : Clock) :
  (forall d data d' pcm,
     decode d data = (d', Ok pcm) -> length pcm = 3840%nat) ->
  Forall (fun block => length block = 3840%nat) (pcmStream w) ->
  exists w',
    processJitterBuffer OpusScript decode w clock = Ok w' /\
    Forall (fun block => length block = 3840%nat) (pcmStream w') /\
    length (concat (pcmStream w')) = (3840 * length (pcmStream w'))%nat.
Proof.
  intros Hdecode Hw. unfold processJitterBuffer.
  destruct (negb (isActive w)).
  - exists w. split; [done|]. split; [done|by apply Forall_length_concat].
  - destruct (JitterBuffer.flush (jitterBuffer w) clock) as [jb packets].
    destruct (processPackets_blocks
                OpusScript decode packets
                (mkUserStreamHandler (userId w) (pcmStream w) jb
                                     (opusDecoder w) (isActive w)) Hdecode Hw)
      as (w' & Hrun & Hblocks).
    exists w'. split; [done|]. split; [done|by apply Forall_length_concat].
Qed.

Lemma pcm_whole_frames_witness :
  exists w',
    processJitterBuffer unit frame_decode handler_4_7 (fun _ => 80) = Ok w' /\
    length (concat (pcmStream w')) = (3840 * 4)%nat.
Proof.
  destruct (pcm_whole_frames unit frame_decode handler_4_7 (fun _ => 80))
    as (w' & Hrun & _ & Hlen).
  - intros d [|b data] d' pcm Hdecode; unfold frame_decode in Hdecode;
      [discriminate|].
    injection Hdecode as _ <-. vm_compute. reflexivity.
  - constructor.
  - exists w'. split; [exact Hrun|].
    vm_compute in Hrun. injection Hrun as <-. reflexivity.
Defined.

(** X16.  The first packet of a stream reaches the PCM stream at the first
    tick: after a new handler has taken a chunk whose payload can be
    extracted, the next tick (any time 20 ms or more after the epoch the
    clock counts from) writes exactly one block, the decoded payload of
    that packet or, if the decoder throws on it, 3840 zero bytes, and
    leaves the queue empty. *)
Theorem first_tick_writes_first_packet
    (OpusScript : Type)
    (decode : OpusScript -> Buffer.t -> OpusScript * result Buffer.t)
    (user : string) (decoder : OpusScript)
    (chunk : Buffer.t) (r : Readings) (payload : Buffer.t) (clock : Clock) :
  extractOpusPayload chunk = Ok payload ->
  20 <= clock 0%nat ->
  let h := handlePacket (newStreamHandler user decoder) chunk r in
  exists w',
    processJitterBuffer OpusScript decode (worker h) clock = Ok w' /\
    pcmStream w'
    = [match (decode decoder payload).2 with
       | Ok pcmData => pcmData
       | Throw _ => replicate 3840 x00
       end] /\
    JitterBuffer.packetQueue (jitterBuffer w') = [].
Proof.
  intros Hextract Hclock h.
  destruct (extractOpusPayload_parses chunk payload Hextract)
    as [header Hparse].
  assert (worker h
          = mkUserStreamHandler
              user []
              (JitterBuffer.mk
                 [JitterBufferPacket.mk payload (RtpHeader.sequenceNumber header)
                                        (RtpHeader.timestamp header)
                                        (bufferTime r)]
                 0 (RtpHeader.sequenceNumber header) true)
              decoder true) as Hworker.
  { subst h. unfold handlePacket. cbn [newStreamHandler worker isActive negb].
    rewrite Hparse, Hextract. reflexivity. }
  rewrite Hworker. unfold processJitterBuffer. cbn [isActive negb jitterBuffer].
  set (packet := JitterBufferPacket.mk payload _ _ _).
  assert (JitterBuffer.flush
            (JitterBuffer.mk [packet] 0 (RtpHeader.sequenceNumber header) true)
            clock
          = (JitterBuffer.mk
               [] (clock 1%nat)
               (RtpHeader.sequenceNumber header
                + JitterBuffer.expectedPackets
                    (JitterBuffer.mk [packet] 0
                                     (RtpHeader.sequenceNumber header) true)
                    (clock 2%nat))
               true,
             [packet])) as ->.
  { unfold JitterBuffer.flush.
    assert (JitterBuffer.shouldFlush
              (JitterBuffer.mk [packet] 0 (RtpHeader.sequenceNumber header) true)
              (clock 0%nat) = true) as ->.
    { unfold JitterBuffer.shouldFlush. cbn [JitterBuffer.packetQueue
        JitterBuffer.lastFlushTime]. apply orb_true_iff. right.
      apply Z.leb_le. unfold JitterBuffer.FRAME_DURATION_MS. lia. }
    cbn [negb JitterBuffer.expectedSequence JitterBuffer.packetQueue
         JitterBuffer.isInitialized].
    pose proof (expectedPackets_pos
                  (JitterBuffer.mk [packet] 0
                                   (RtpHeader.sequenceNumber header) true)
                  (clock 2%nat)) as Hpos.
    destruct (Z.to_nat (JitterBuffer.expectedPackets _ (clock 2%nat)))
      as [|slots] eqn:Hslots; [lia|].
    cbn [JitterBuffer.flush_loop list_find]. subst packet.
    cbn [JitterBufferPacket.sequence].
    rewrite decide_True by lia. cbn. by rewrite flush_loop_nil. }
  cbn [processPackets userId pcmStream opusDecoder isActive].
  destruct (processPacket_spec
              OpusScript decode
              (mkUserStreamHandler
                 user []
                 (JitterBuffer.mk
                    [] (clock 1%nat)
                    (RtpHeader.sequenceNumber header
                     + JitterBuffer.expectedPackets
                         (JitterBuffer.mk [packet] 0
                                          (RtpHeader.sequenceNumber header)
                                          true)
                         (clock 2%nat))
                    true)
                 decoder true)
              packet) as (block & Hstep & Hblock).
  rewrite Hstep, bind_Ok. eexists. split; [reflexivity|].
  subst packet.
  cbn [pcmStream jitterBuffer JitterBuffer.packetQueue opusDecoder
       JitterBufferPacket.data app] in Hblock |- *.
  split; [|reflexivity].
  f_equal. by destruct ((decode decoder payload).2).
Qed.

Lemma first_tick_writes_first_packet_witness :
  (exists w',
     processJitterBuffer
       unit frame_decode
       (worker (handlePacket (newStreamHandler "alice" tt) version0_packet
                             sample_readings))
       (fun _ => 1020) = Ok w' /\
     pcmStream w' = [replicate 3840 x00]) /\
  (exists w',
     processJitterBuffer
       unit frame_decode
       (worker (handlePacket (newStreamHandler "alice" tt) extension_packet
                             sample_readings))
       (fun _ => 1020) = Ok w' /\
     pcmStream w' = [replicate 3840 x01]).
Proof.
  split.
  - destruct (first_tick_writes_first_packet
                unit frame_decode "alice" tt version0_packet sample_readings
                [] (fun _ => 1020))
      as (w' & Hrun & Hpcm & _); [reflexivity|lia|].
    exists w'. split; [exact Hrun|exact Hpcm].
  - destruct (first_tick_writes_first_packet
                unit frame_decode "alice" tt extension_packet sample_readings
                [xaa; xbb] (fun _ => 1020))
      as (w' & Hrun & Hpcm & _); [reflexivity|lia|].
    exists w'. split; [exact Hrun|exact Hpcm].
Defined.

(** ** The mix command *)

Section MixFacts.

Import AudioMixer.

Variable join : string -> string -> string.
Variable recordingsDir : string.
Variable executeFFmpeg : list string -> result unit.

Lemma setTrackDelays_last g before track after delays :
  TrackMetadata.userId track ∉ (TrackMetadata.userId <$> after) ->
  foldl (setTrackDelay g) delays (before ++ track :: after)
    !! TrackMetadata.userId track
  = Some (Z.max 0 (Math_round (trackStartTime track - g))).
Proof.
  intros Hafter. rewrite foldl_app. cbn [foldl].
  rewrite setTrackDelays_other by done.
  unfold setTrackDelay at 1. by rewrite lookup_insert_eq.
Qed.

Lemma setTrackDelays_is_Some g tracks delays user :
  user ∈ (TrackMetadata.userId <$> tracks) ->
  is_Some (foldl (setTrackDelay g) delays tracks !! user).
Proof.
  revert delays. induction tracks as [|t tracks IH]; intros delays Hin.
  - by apply elem_of_nil in Hin.
  - cbn [foldl].
    destruct (decide (user ∈ (TrackMetadata.userId <$> tracks)))
      as [Hlater|Hlater]; [by apply IH|].
    rewrite setTrackDelays_other by done.
    rewrite fmap_cons in Hin. apply elem_of_cons in Hin as [->|Hin]; [|done].
    unfold setTrackDelay. rewrite lookup_insert_eq. by eexists.
Qed.

Lemma delay_not_floored tracks track :
  track ∈ tracks ->
  0 <= Math_round (trackStartTime track - calculateGlobalStartTime tracks).
Proof.
  intros Hin. rewrite <- (Math_round_0 0) by reflexivity.
  apply Math_round_mono.
  assert (calculateGlobalStartTime tracks <= trackStartTime track)%Q as Hle.
  { unfold calculateGlobalStartTime.
    apply (list_elem_of_fmap_2 trackStartTime) in Hin.
    change (map trackStartTime tracks) with (trackStartTime <$> tracks).
    destruct (trackStartTime <$> tracks) as [|first others];
      [by apply elem_of_nil in Hin|].
    by apply Math_min_le. }
  apply (Qplus_le_l _ _ (calculateGlobalStartTime tracks)).
  ring_simplify. exact Hle.
Qed.

Lemma filterComplexParts_lookup tracks trackDelays options i track :
  tracks !! i = Some track ->
  filterComplexParts tracks trackDelays options !! i
  = Some (adelayFilter trackDelays i track).
Proof.
  intros Hi. unfold filterComplexParts.
  rewrite lookup_app_l
    by (rewrite length_imap; by apply lookup_lt_Some in Hi).
  by rewrite list_lookup_imap, Hi.
Qed.

End MixFacts.

(** X19.  [mixSession] runs FFmpeg at most once, and not at all exactly
    when no track was loaded (loading failed, or found none); it then
    fails.  It reports a path only after FFmpeg has succeeded on the one
    command, and the path is [<sessionId>_mixed.<format>] in the
    recordings directory, the last argument of that command after
    [-y]. *)
Theorem mixSession_runs_once
    (join : string -> string -> string) (recordingsDir : string)
    (executeFFmpeg : list string -> result unit)
    (loaded : result (list TrackMetadata.t)) (sessionId : string)
    (mixOptions : MixingOptions) :
  let run :=
    mixSession join recordingsDir executeFFmpeg loaded sessionId mixOptions in
  (length run.1 <= 1)%nat /\
  (run.1 = [] <-> forall tracks, loaded = Ok tracks -> tracks = []) /\
  (run.1 = [] -> exists e, run.2 = Throw e) /\
  (loaded = Ok [] ->
   run.2 = Throw (JsError ("No tracks found for session " +:+ sessionId))) /\
  (forall path,
     run.2 = Ok path ->
     path = join recordingsDir
                 (sessionId +:+ "_mixed."
                            +:+ formatName (outputFormat mixOptions)) /\
     exists args,
       run.1 = [args] /\ executeFFmpeg args = Ok () /\
       ["-y"; path] `suffix_of` args).
Proof.
  unfold mixSession. destruct loaded as [tracks|e].
  - destruct (decide (length tracks = 0%nat)) as [Hnone|Hsome].
    + apply nil_length_inv in Hnone as ->. cbn.
      repeat split; try done; try lia; eauto.
      by intros _ tracks [= <-].
    + cbn [generateMixCommand fst snd length].
      split; [lia|]. split; [|split; [done|split]].
      * split; [done|]. intros Hall. specialize (Hall tracks eq_refl).
        by subst.
      * intros [= ->]. done.
      * intros path Hpath.
        destruct (executeFFmpeg _) as [[]|e] eqn:Hrun; [|done].
        rewrite bind_Ok in Hpath. injection Hpath as <-.
        split; [done|]. eexists. split; [reflexivity|].
        split; [exact Hrun|].
        unfold ffmpegArgs. rewrite !app_assoc. by apply suffix_app_r.
  - cbn. repeat split; try done; try lia; eauto.
Qed.

Lemma mixSession_runs_once_witness :
  exists args,
    (mixSession posix_join "recordings" ffmpeg_succeeds (Ok three_tracks)
                "guild_1" DEFAULT_OPTIONS).1 = [args] /\
    ["-y"; "recordings/guild_1_mixed.wav"] `suffix_of` args.
Proof.
  destruct (mixSession_runs_once posix_join "recordings" ffmpeg_succeeds
                                 (Ok three_tracks) "guild_1" DEFAULT_OPTIONS)
    as (_ & _ & _ & _ & Hpath).
  destruct (Hpath "recordings/guild_1_mixed.wav" eq_refl)
    as (_ & args & Hcalls & _ & Hsuffix).
  by exists args.
Defined.

(** X20.  In the command of a mix, the filter stage of every track delays
    it by a delay the timeline has recorded for its user: the fallback to 0
    of the lookup never stands in for a missing entry, and the delay is no
    less than 0.  For a track that no later track shares its user id
    with, the delay is [round(start of the track - globalStartTime)]
    itself, which the floor at 0 leaves as it is. *)
Theorem adelay_stage_delay
    (tracks : list TrackMetadata.t) (options : MixingOptions)
    (i : nat) (track : TrackMetadata.t) :
  tracks !! i = Some track ->
  let globalStartTime := AudioMixer.calculateGlobalStartTime tracks in
  let trackDelays := AudioMixer.calculateTrackDelays tracks globalStartTime in
  exists delayMs,
    trackDelays !! TrackMetadata.userId track = Some delayMs /\
    0 <= delayMs /\
    filterComplexParts tracks trackDelays options !! i
    = Some ("[" +:+ pretty i +:+ ":a]adelay=delays=" +:+ pretty delayMs
                +:+ ":all=true[delayed" +:+ pretty i +:+ "]") /\
    (TrackMetadata.userId track
       ∉ (TrackMetadata.userId <$> drop (S i) tracks) ->
     delayMs = Math_round (AudioMixer.trackStartTime track - globalStartTime)).
Proof.
  intros Hi globalStartTime trackDelays.
  pose proof (list_elem_of_lookup_2 _ _ _ Hi) as Hin.
  destruct (setTrackDelays_is_Some
              globalStartTime tracks ∅ (TrackMetadata.userId track))
    as [delayMs Hdelay]; [by apply list_elem_of_fmap_2|].
  fold (AudioMixer.calculateTrackDelays tracks globalStartTime) in Hdelay.
  fold trackDelays in Hdelay.
  exists delayMs. split; [exact Hdelay|].
  split; [|split].
  - apply setTrackDelays_recorded in Hdelay as [Hempty|(t & _ & _ & ->)];
      [by rewrite lookup_empty in Hempty|lia].
  - rewrite (filterComplexParts_lookup _ _ _ _ _ Hi).
    unfold adelayFilter. by rewrite Hdelay.
  - intros Hlast. subst trackDelays. unfold AudioMixer.calculateTrackDelays in Hdelay.
    rewrite <- (take_drop_middle _ _ _ Hi) in Hdelay.
    rewrite setTrackDelays_last in Hdelay by done.
    injection Hdelay as <-. apply Z.max_r.
    by apply delay_not_floored.
Qed.

Lemma adelay_stage_delay_witness :
  filterComplexParts
    three_tracks
    (AudioMixer.calculateTrackDelays
       three_tracks (AudioMixer.calculateGlobalStartTime three_tracks))
    DEFAULT_OPTIONS !! 2%nat
  = Some "[2:a]adelay=delays=300:all=true[delayed2]".
Proof.
  destruct (adelay_stage_delay three_tracks DEFAULT_OPTIONS 2 carol_track
                               eq_refl)
    as (delayMs & _ & _ & Hstage & Hdelay).
  rewrite Hstage, Hdelay; [reflexivity|].
  cbn. apply not_elem_of_nil.
Defined.

(** X22.  [mixFiles] is [mixSession] on the tracks it could read: with an
    output name it mixes them as the session of that name would be mixed,
    and without one (or with the empty name) under the name
    [manual_mix_<time>].  Only the failure on no tracks differs, in its
    message, whatever the name; FFmpeg is not run then either. *)
Theorem mixFiles_as_mixSession
    (join : string -> string -> string) (recordingsDir : string)
    (executeFFmpeg : list string -> result unit)
    (tracks : list TrackMetadata.t) (outputName : string)
    (mixOptions : MixingOptions) (now : Z) :
  tracks <> [] ->
  outputName <> "" ->
  mixFiles join recordingsDir executeFFmpeg tracks (Some outputName)
           mixOptions now
  = mixSession join recordingsDir executeFFmpeg (Ok tracks) outputName
               mixOptions /\
  mixFiles join recordingsDir executeFFmpeg tracks None mixOptions now
  = mixSession join recordingsDir executeFFmpeg (Ok tracks)
               ("manual_mix_" +:+ pretty now) mixOptions /\
  mixFiles join recordingsDir executeFFmpeg tracks (Some "") mixOptions now
  = mixFiles join recordingsDir executeFFmpeg tracks None mixOptions now /\
  (forall name : option string,
     mixFiles join recordingsDir executeFFmpeg [] name mixOptions now
     = ([], Throw (JsError "No valid tracks found from metadata files"))).
Proof.
  intros Htracks Hname. unfold mixFiles, mixSession.
  destruct tracks as [|track tracks]; [done|]. cbn [length].
  rewrite !decide_False by done. by repeat split.
Qed.

Lemma mixFiles_as_mixSession_witness :
  mixFiles posix_join "recordings" ffmpeg_succeeds three_tracks (Some "take1")
           DEFAULT_OPTIONS 1700000000000
  = mixSession posix_join "recordings" ffmpeg_succeeds (Ok three_tracks)
               "take1" DEFAULT_OPTIONS.
Proof.
  apply (mixFiles_as_mixSession posix_join "recordings" ffmpeg_succeeds
                                three_tracks "take1" DEFAULT_OPTIONS
                                1700000000000); discriminate.
Defined.

(** ** Drift analysis of a recorded session *)

Section SessionFacts.

Import DriftCorrector.

Variable join : string -> string -> string.
Variable executeFFmpeg : list ffarg -> result unit.

Lemma Qeq_bool_inject_Z (z : Z) : z <> 0 -> Qeq_bool (inject_Z z) 0 = false.
Proof.
  intros Hz. apply Qeq_bool_false. intros Hzero. apply Hz.
  by apply (proj1 (inject_Z_injective z 0)).
Qed.

(** The estimate of a track whose file was found and whose sample rate is
    not zero. *)
Lemma estimateDriftFromMetadata_finite track size now :
  TrackMetadata.pcmSampleRate track <> 0 ->
  let driftMs :=
    (inject_Z size / inject_Z (TrackMetadata.pcmSampleRate track * 4) * 1000
     - (inject_Z now - hrtimeToMs (TrackMetadata.startTimeHR track)))%Q in
  estimateDriftFromMetadata track (Ok size) now
  = DriftEstimate.mk
      (if negb (Qle_bool (Qabs driftMs) 1000) then JsNum.Fin 0
       else JsNum.Fin driftMs)
      (JsNum.Fin (Qmin 1 (Qabs driftMs / 100)))
      (JsNum.Fin
         (inject_Z
            (Qfloor
               (inject_Z size
                / inject_Z (TrackMetadata.pcmSampleRate track * 4) * 1000
                / 20)))).
Proof.
  intros Hrate driftMs. unfold estimateDriftFromMetadata, JsNum.of_Z.
  cbn [JsNum.div].
  rewrite Qeq_bool_inject_Z by lia. reflexivity.
Qed.

(** The estimate of a track whose sample rate is zero. *)
Lemma estimateDriftFromMetadata_rate_0 track size now :
  TrackMetadata.pcmSampleRate track = 0 ->
  let estimate := estimateDriftFromMetadata track (Ok size) now in
  (size <> 0 ->
   DriftEstimate.driftMs estimate = JsNum.Fin 0 /\
   DriftEstimate.confidence estimate = JsNum.Fin 1) /\
  (size = 0 ->
   DriftEstimate.driftMs estimate = JsNum.NaN /\
   DriftEstimate.confidence estimate = JsNum.NaN).
Proof.
  intros Hrate. unfold estimateDriftFromMetadata, JsNum.of_Z.
  rewrite Hrate. change (inject_Z (0 * 4)) with 0%Q.
  cbn [JsNum.div]. change (Qeq_bool 0 0) with true. cbn match.
  split.
  - intros Hsize.
    destruct (inject_Z size ?= 0)%Q eqn:Hsign.
    + apply Qeq_alt in Hsign.
      by apply (proj1 (inject_Z_injective size 0)) in Hsign.
    + by split.
    + by split.
  - intros ->. by split.
Qed.

Lemma analyzeTrack_original recordingsDir track seen :
  JsNum.geb (JsNum.abs
               (DriftEstimate.driftMs
                  (estimateDriftFromMetadata track (stats seen)
                                             (currentTime seen))))
            (JsNum.Fin DRIFT_THRESHOLD_MS)
  && JsNum.gtb (DriftEstimate.confidence
                  (estimateDriftFromMetadata track (stats seen)
                                             (currentTime seen)))
               (JsNum.Fin (7 # 10)) = false ->
  analyzeTrack join executeFFmpeg recordingsDir track seen
  = ([], join recordingsDir (TrackMetadata.filename track)).
Proof. intros Hguard. unfold analyzeTrack. by rewrite Hguard. Qed.

Lemma small_drift_not_confident (d : Q) :
  (Qabs d <= 70)%Q ->
  Qle_bool 10 (Qabs d) && negb (Qle_bool (Qmin 1 (Qabs d / 100)) (7 # 10))
  = false.
Proof.
  intros Hsmall. apply andb_false_iff. right. apply negb_false_iff.
  apply Qle_bool_iff. eapply Qle_trans; [apply Q.le_min_r|].
  apply Qle_shift_div_r; [reflexivity|].
  eapply Qle_trans; [exact Hsmall|]. discriminate.
Qed.

Lemma large_drift_confident (d : Q) :
  (70 < Qabs d)%Q ->
  Qle_bool 10 (Qabs d) && negb (Qle_bool (Qmin 1 (Qabs d / 100)) (7 # 10))
  = true.
Proof.
  intros Hlarge. apply andb_true_iff. split.
  - apply Qle_bool_iff. eapply Qle_trans; [|apply Qlt_le_weak, Hlarge].
    discriminate.
  - apply negb_true_iff. apply not_true_is_false. intros Hle.
    apply Qle_bool_iff in Hle. apply Q.min_le in Hle as [Hle|Hle];
      [by apply Hle|].
    apply (Qlt_not_le _ _ Hlarge).
    apply (Qmult_le_r _ _ (/ 100)); [reflexivity|].
    assert (70 * / 100 == 7 # 10)%Q as -> by reflexivity.
    exact Hle.
Qed.

Lemma correctDrift_outcome inputFile driftMs outputDir now :
  let run := correctDrift join executeFFmpeg inputFile driftMs outputDir now in
  (length run.1 <= 1)%nat /\
  forall file,
    run.2 = Ok file ->
    file = inputFile \/
    exists args,
      run.1 = [args] /\ executeFFmpeg args = Ok () /\
      last args = Some (Arg file).
Proof.
  unfold correctDrift. destruct (JsNum.ltb _ _); cbn [fst snd length].
  - split; [lia|]. intros file [= <-]. by left.
  - split; [lia|]. intros file Hfile.
    destruct (executeFFmpeg _) as [[]|e] eqn:Hrun; [|done].
    rewrite bind_Ok in Hfile. injection Hfile as <-.
    right. eexists. split; [reflexivity|]. split; [exact Hrun|done].
Qed.

Lemma analyzeTrack_outcome recordingsDir track seen :
  let run := analyzeTrack join executeFFmpeg recordingsDir track seen in
  (length run.1 <= 1)%nat /\
  (run.2 = join recordingsDir (TrackMetadata.filename track) \/
   exists args,
     run.1 = [args] /\ executeFFmpeg args = Ok () /\
     last args = Some (Arg run.2)).
Proof.
  unfold analyzeTrack.
  destruct (_ && _); [|cbn; split; [lia|by left]].
  pose proof (correctDrift_outcome
                (join recordingsDir (TrackMetadata.filename track))
                (DriftEstimate.driftMs
                   (estimateDriftFromMetadata track (stats seen)
                                              (currentTime seen)))
                recordingsDir (renderTime seen)) as [Hlength Hfile].
  destruct (correctDrift _ _ _ _ _ _) as [commands [file|e]];
    cbn [fst snd] in *; (split; [done|]); [|by left].
  destruct (Hfile file eq_refl) as [->|Hrendered]; [by left|by right].
Qed.

Lemma analyzeAndCorrectSession_snoc tracks track seen recordingsDir :
  analyzeAndCorrectSession join executeFFmpeg (tracks ++ [(track, seen)])
                           recordingsDir
  = let run := analyzeAndCorrectSession join executeFFmpeg tracks
                                        recordingsDir in
    let step := analyzeTrack join executeFFmpeg recordingsDir track seen in
    (run.1 ++ step.1, <[TrackMetadata.userId track := step.2]> run.2).
Proof.
  unfold analyzeAndCorrectSession. rewrite foldl_app. cbn [foldl].
  destruct (foldl _ _ tracks) as [commands files].
  by destruct (analyzeTrack _ _ _ _ _).
Qed.

End SessionFacts.

(** X23.  The drift that [estimateDriftFromMetadata] reports is never
    infinite and never more than 1000 ms either way, and its confidence
    lies between 0 and 1.  Neither is a number only when both the size of
    the file and the sample rate of the track are zero; an estimate that
    cannot read the file reports zero drift with zero confidence. *)
Theorem estimateDriftFromMetadata_bounded
    (track : TrackMetadata.t) (stats : result Z) (currentTime : Z) :
  let estimate := estimateDriftFromMetadata track stats currentTime in
  match DriftEstimate.driftMs estimate with
  | JsNum.Fin driftMs => (Qabs driftMs <= 1000)%Q
  | JsNum.Inf _ => False
  | JsNum.NaN => stats = Ok 0 /\ TrackMetadata.pcmSampleRate track = 0
  end /\
  match DriftEstimate.confidence estimate with
  | JsNum.Fin confidence => (0 <= confidence <= 1)%Q
  | JsNum.Inf _ => False
  | JsNum.NaN => stats = Ok 0 /\ TrackMetadata.pcmSampleRate track = 0
  end /\
  (forall e,
     stats = Throw e ->
     DriftEstimate.driftMs estimate = JsNum.Fin 0 /\
     DriftEstimate.confidence estimate = JsNum.Fin 0).
Proof.
  intros estimate. subst estimate.
  destruct stats as [size|e]; [|cbn; repeat split; done].
  split; [|split; [|done]].
  - destruct (decide (TrackMetadata.pcmSampleRate track = 0)) as [Hrate|Hrate].
    + destruct (estimateDriftFromMetadata_rate_0 track size currentTime Hrate)
        as [Hsome Hnone].
      destruct (decide (size = 0)) as [->|Hsize].
      * destruct (Hnone eq_refl) as [-> _]. done.
      * destruct (Hsome Hsize) as [-> _]. done.
    + rewrite estimateDriftFromMetadata_finite by done.
      cbn [DriftEstimate.driftMs].
      destruct (Qle_bool _ 1000) eqn:Hle; cbn [negb]; [|done].
      by apply Qle_bool_iff.
  - destruct (decide (TrackMetadata.pcmSampleRate track = 0)) as [Hrate|Hrate].
    + destruct (estimateDriftFromMetadata_rate_0 track size currentTime Hrate)
        as [Hsome Hnone].
      destruct (decide (size = 0)) as [->|Hsize].
      * destruct (Hnone eq_refl) as [_ ->]. done.
      * destruct (Hsome Hsize) as [_ ->]. done.
    + rewrite estimateDriftFromMetadata_finite by done.
      cbn [DriftEstimate.confidence]. split; [|apply Q.le_min_l].
      apply Q.min_glb; [done|].
      apply Qle_shift_div_l; [reflexivity|].
      rewrite Qmult_0_l. apply Qabs_nonneg.
Qed.

(** X24.  The session analysis re-renders a track exactly when its file
    was found, its sample rate is not zero, and the estimated drift -- the
    duration the file size stands for, less the time since the track
    started -- is more than 70 ms and at most 1000 ms either way: the
    confidence required subsumes the 10 ms threshold.  The render is the
    command [-f s16le -ar 48000 -ac 2 -i <original> -filter:a
    atempo=<factor> -f s16le -y <output>] with the factor
    1 - drift/1000 clamped into [0.95, 1.05], and its output is recorded
    for the track if FFmpeg completes, the original file otherwise.  In
    every other case FFmpeg is not run and the original file is
    recorded. *)
Theorem analyzeTrack_window
    (join : string -> string -> string)
    (executeFFmpeg : list DriftCorrector.ffarg -> result unit)
    (recordingsDir : string) (track : TrackMetadata.t) (seen : Observed) :
  let original := join recordingsDir (TrackMetadata.filename track) in
  let run := analyzeTrack join executeFFmpeg recordingsDir track seen in
  ((forall size, stats seen = Ok size -> TrackMetadata.pcmSampleRate track = 0) ->
   run = ([], original)) /\
  (forall size,
     stats seen = Ok size ->
     TrackMetadata.pcmSampleRate track <> 0 ->
     let driftMs :=
       (inject_Z size / inject_Z (TrackMetadata.pcmSampleRate track * 4) * 1000
        - (inject_Z (currentTime seen)
           - hrtimeToMs (TrackMetadata.startTimeHR track)))%Q in
     (~ (70 < Qabs driftMs /\ Qabs driftMs <= 1000)%Q ->
      run = ([], original)) /\
     ((70 < Qabs driftMs)%Q -> (Qabs driftMs <= 1000)%Q ->
      let outputFile :=
        join recordingsDir
             ("corrected_" +:+ pretty (renderTime seen) +:+ ".pcm") in
      let clampedFactor :=
        Qmax (95 # 100) (Qmin (105 # 100) (1 - driftMs / 1000)) in
      let args :=
        [DriftCorrector.Arg "-f"; DriftCorrector.Arg "s16le";
         DriftCorrector.Arg "-ar"; DriftCorrector.Arg "48000";
         DriftCorrector.Arg "-ac"; DriftCorrector.Arg "2";
         DriftCorrector.Arg "-i"; DriftCorrector.Arg original;
         DriftCorrector.Arg "-filter:a";
         DriftCorrector.Atempo (JsNum.Fin clampedFactor);
         DriftCorrector.Arg "-f"; DriftCorrector.Arg "s16le";
         DriftCorrector.Arg "-y"; DriftCorrector.Arg outputFile] in
      (95 # 100 <= clampedFactor <= 105 # 100)%Q /\
      run = ([args],
             match executeFFmpeg args with
             | Ok _ => outputFile
             | Throw _ => original
             end))).
Proof.
  intros original run. subst run. split.
  - intros Hrate. apply analyzeTrack_original.
    destruct (stats seen) as [size|e] eqn:Hstats; [|done].
    specialize (Hrate size eq_refl).
    destruct (estimateDriftFromMetadata_rate_0
                track size (currentTime seen) Hrate) as [Hsome Hnone].
    destruct (decide (size = 0)) as [->|Hsize].
    + destruct (Hnone eq_refl) as [-> ->]. done.
    + destruct (Hsome Hsize) as [-> ->]. done.
  - intros size Hstats Hrate driftMs.
    pose proof (estimateDriftFromMetadata_finite
                  track size (currentTime seen) Hrate) as Hestimate.
    cbn zeta in Hestimate. fold driftMs in Hestimate. split.
    + intros Hwindow. apply analyzeTrack_original.
      rewrite Hstats, Hestimate.
      cbn [DriftEstimate.driftMs DriftEstimate.confidence].
      destruct (Qle_bool (Qabs driftMs) 1000) eqn:Hle; cbn [negb]; [|done].
      apply Qle_bool_iff in Hle.
      cbn [JsNum.abs JsNum.geb JsNum.gtb].
      apply small_drift_not_confident.
      destruct (Qlt_le_dec 70 (Qabs driftMs)); [|done].
      exfalso. by apply Hwindow.
    + intros Hlarge Hle outputFile clampedFactor args.
      split.
      { subst clampedFactor. rewrite clampedFactor_clamp. apply clamp_range. }
      unfold analyzeTrack. rewrite Hstats, Hestimate.
      cbn [DriftEstimate.driftMs DriftEstimate.confidence].
      apply Qle_bool_iff in Hle. rewrite Hle. cbn [negb].
      cbn [JsNum.abs JsNum.geb JsNum.gtb].
      unfold DriftCorrector.DRIFT_THRESHOLD_MS.
      pose proof (large_drift_confident driftMs Hlarge) as Hguard.
      rewrite Hguard. apply andb_true_iff in Hguard as [Hten _].
      unfold DriftCorrector.correctDrift, DriftCorrector.DRIFT_THRESHOLD_MS.
      cbn [JsNum.abs JsNum.ltb JsNum.gtb JsNum.div JsNum.sub JsNum.min
           JsNum.max].
      rewrite Hten. cbn [negb].
      change (Qeq_bool 1000 0) with false. cbv iota.
      fold original. fold outputFile. fold clampedFactor.
      unfold DriftCorrector.tempoArgs. fold args.
      by destruct (executeFFmpeg args) as [[]|e].
Qed.

Lemma analyzeTrack_window_witness :
  (analyzeTrack posix_join render_succeeds "recordings" alice_first
                alice_seen).2
  = "recordings/corrected_1700000000500.pcm" /\
  analyzeTrack posix_join render_succeeds "recordings" alice_first
               alice_recorded
  = ([], "recordings/alice_1.pcm").
Proof.
  split.
  - destruct (analyzeTrack_window posix_join render_succeeds "recordings"
                                  alice_first alice_seen) as [_ Hfound].
    destruct (Hfound 326400000000000 eq_refl) as [_ Hrender]; [discriminate|].
    destruct Hrender as [_ ->]; [| |reflexivity].
    + vm_compute. reflexivity.
    + vm_compute. discriminate.
  - destruct (analyzeTrack_window posix_join render_succeeds "recordings"
                                  alice_first alice_recorded) as [_ Hfound].
    assert (TrackMetadata.pcmSampleRate alice_first <> 0) as Hrate
      by discriminate.
    destruct (Hfound 1920000 eq_refl Hrate) as [Horiginal _].
    apply Horiginal. intros [_ Hle]. vm_compute in Hle. by apply Hle.
Defined.
(** X25.  [analyzeAndCorrectSession] settles for every list of tracks, and
    runs FFmpeg at most once per track.  Its map has an entry for exactly
    the user ids of the tracks, and the file of an entry is the original
    file of a track of that user or the output of a render that FFmpeg
    completed: a failed render is never recorded. *)
Theorem analyzeAndCorrectSession_files
    (join : string -> string -> string)
    (executeFFmpeg : list DriftCorrector.ffarg -> result unit)
    (tracks : list (TrackMetadata.t * Observed)) (recordingsDir : string) :
  let run :=
    analyzeAndCorrectSession join executeFFmpeg tracks recordingsDir in
  (length run.1 <= length tracks)%nat /\
  (forall user,
     is_Some (run.2 !! user)
     <-> user ∈ (TrackMetadata.userId <$> tracks.*1)) /\
  (forall user file,
     run.2 !! user = Some file ->
     (exists track,
        track ∈ tracks.*1 /\ TrackMetadata.userId track = user /\
        file = join recordingsDir (TrackMetadata.filename track)) \/
     (exists args,
        args ∈ run.1 /\ executeFFmpeg args = Ok () /\
        last args = Some (DriftCorrector.Arg file))).
Proof.
  induction tracks as [|[track seen] tracks IH] using rev_ind.
  - cbn. split; [lia|]. split.
    + intros user. rewrite lookup_empty. split; [by intros [? ?]|].
      by intros ?%elem_of_nil.
    + intros user file. by rewrite lookup_empty.
  - rewrite analyzeAndCorrectSession_snoc. cbn zeta in *.
    destruct (analyzeAndCorrectSession join executeFFmpeg tracks recordingsDir)
      as [commands files].
    destruct IH as (IHlength & IHdom & IHfile).
    pose proof (analyzeTrack_outcome join executeFFmpeg recordingsDir
                                     track seen) as [Hlength Hfile].
    cbn zeta in Hlength, Hfile.
    destruct (analyzeTrack join executeFFmpeg recordingsDir track seen)
      as [more file'].
    cbn [fst snd] in *. rewrite !fmap_app. cbn [fmap list_fmap].
    split; [rewrite !length_app; cbn; lia|]. split.
    + intros user. rewrite elem_of_app, list_elem_of_singleton.
      destruct (decide (TrackMetadata.userId track = user)) as [<-|Hother].
      * rewrite lookup_insert_eq. split; [by right|by eexists].
      * rewrite lookup_insert_ne by done. rewrite IHdom.
        split; [by left|]. by intros [?|?].
    + intros user file Hlookup.
      apply lookup_insert_Some in Hlookup as [[<- <-]|[_ Hlookup]].
      * destruct Hfile as [->|(args & -> & Hrun & Hlast)].
        -- left. exists track. split; [|done].
           apply elem_of_app. right. by apply list_elem_of_singleton.
        -- right. exists args. split; [|done].
           apply elem_of_app. right. by apply list_elem_of_singleton.
      * destruct (IHfile user file Hlookup)
          as [(t & Hin & Huser & Hpath)|(args & Hin & Hrun & Hlast)].
        -- left. exists t. split; [|done]. apply elem_of_app. by left.
        -- right. exists args. split; [|done]. apply elem_of_app. by left.
Qed.
